(** * cluster-capi-operator: kubeconfig controller and watch predicates

    A shallow embedding of
      - pkg/controllers/watch_predicates.go   (the event filters),
      - pkg/controllers/kubeconfig/kubeconfig.go (the reconcile loop and the
        upsert of the kubeconfig secret),
    together with the parts of their environment they call into: the typed
    get/create/patch store, controllerutil.CreateOrPatch, the cluster
    operator status client and generateKubeconfig.

    Go strings and byte slices are byte sequences: both are [string] here
    (a nil slice and an empty one both have length zero).  Go maps are
    [gmap]s.  A Go [error] is a record of the API status reason it carries
    (what apierrors.IsNotFound inspects) and of the text of its Error()
    method. *)

From Stdlib Require Import NArith Ascii String List Bool.
From stdpp Require Import base option strings pretty gmap fin_maps.
Import ListNotations.

Local Open Scope string_scope.

(* ===================================================================== *)
(** ** Errors *)
(* ===================================================================== *)

Inductive StatusReason : Type :=
  | StatusReasonNotFound
  | StatusReasonAlreadyExists
  | StatusReasonConflict
  | StatusReasonInternalError
  | StatusReasonServiceUnavailable.

#[global] Instance StatusReason_eq_dec : EqDecision StatusReason.
Proof. solve_decision. Defined.

Record error : Type := mkError {
  ErrStatus : option StatusReason;
  Error : string
}.

#[global] Instance error_eq_dec : EqDecision error.
Proof. solve_decision. Defined.

(** errors.New(msg) and fmt.Errorf without the wrapping verb: a plain
    error, it carries no API status. *)
Definition errors_New (msg : string) : error :=
  {| ErrStatus := None; Error := msg |}.

(** fmt.Errorf(prefix + "%v", err): the text of [err] is formatted into
    the message; the status of [err] is lost, the result is a new error. *)
Definition Errorf (pre : string) (err : error) : error :=
  errors_New (pre +:+ Error err).

(** apierrors.IsNotFound *)
Definition IsNotFound (err : error) : bool :=
  bool_decide (ErrStatus err = Some StatusReasonNotFound).

(* ===================================================================== *)
(** ** encoding/base64, StdEncoding.DecodeString *)
(* ===================================================================== *)

Module base64.

(** The value of a character of the standard alphabet. *)
Definition sextet (c : ascii) : option N :=
  let n := N_of_ascii c in
  if (65 <=? n)%N && (n <=? 90)%N then Some (n - 65)%N
  else if (97 <=? n)%N && (n <=? 122)%N then Some (n - 71)%N
  else if (48 <=? n)%N && (n <=? 57)%N then Some (n + 4)%N
  else if (n =? 43)%N then Some 62%N
  else if (n =? 47)%N then Some 63%N
  else None.

Definition isPad (c : ascii) : bool := (N_of_ascii c =? 61)%N.

(** The decoder skips carriage returns and line feeds wherever they are. *)
Definition isNewline (c : ascii) : bool :=
  let n := N_of_ascii c in (n =? 10)%N || (n =? 13)%N.

Definition byteOf (n : N) : ascii := ascii_of_N (N.land n 255).

Definition quantum (a b c d : N) : N :=
  N.lor (N.lor (N.shiftl a 18) (N.shiftl b 12)) (N.lor (N.shiftl c 6) d).

(** One quantum of four characters at a time.  Only the last quantum may
    be padded ("xx==" gives one byte, "xxx=" two); the encoding is not
    strict, the bits under the padding are dropped unchecked. *)
Fixpoint decodeQuanta (src : list ascii) : option (list ascii) :=
  match src with
  | [] => Some []
  | a :: b :: c :: d :: rest =>
      match sextet a, sextet b with
      | Some x, Some y =>
          if isPad c then
            if isPad d then
              match rest with
              | [] => Some [byteOf (N.shiftr (quantum x y 0 0) 16)]
              | _ => None
              end
            else None
          else
            match sextet c with
            | Some z =>
                if isPad d then
                  match rest with
                  | [] => let v := quantum x y z 0 in
                          Some [byteOf (N.shiftr v 16); byteOf (N.shiftr v 8)]
                  | _ => None
                  end
                else
                  match sextet d with
                  | Some u =>
                      let v := quantum x y z u in
                      match decodeQuanta rest with
                      | Some out =>
                          Some (byteOf (N.shiftr v 16) :: byteOf (N.shiftr v 8)
                                  :: byteOf v :: out)
                      | None => None
                      end
                  | None => None
                  end
            | None => None
            end
      | _, _ => None
      end
  | _ => None
  end.

Definition CorruptInputError : error := errors_New "illegal base64 data".

Definition DecodeString (s : string) : option string * option error :=
  match decodeQuanta (List.filter (fun c => negb (isNewline c)) (list_ascii_of_string s)) with
  | Some out => (Some (string_of_list_ascii out), None)
  | None => (None, Some CorruptInputError)
  end.

End base64.

(* ===================================================================== *)
(** ** clientcmd/api: the kubeconfig document *)
(* ===================================================================== *)

Module api.

Record Cluster : Type := mkCluster {
  Server : string;
  CertificateAuthorityData : string
}.

Record Context : Type := mkContext {
  ContextCluster : string;      (* Context.Cluster *)
  ContextAuthInfo : string;     (* Context.AuthInfo *)
  ContextNamespace : string     (* Context.Namespace *)
}.

Record AuthInfo : Type := mkAuthInfo {
  Token : string
}.

Record Config : Type := mkConfig {
  Clusters : gmap string Cluster;
  Contexts : gmap string Context;
  AuthInfos : gmap string AuthInfo
}.

#[global] Instance Cluster_eq_dec : EqDecision Cluster.
Proof. solve_decision. Defined.
#[global] Instance Context_eq_dec : EqDecision Context.
Proof. solve_decision. Defined.
#[global] Instance AuthInfo_eq_dec : EqDecision AuthInfo.
Proof. solve_decision. Defined.
#[global] Instance Config_eq_dec : EqDecision Config.
Proof. solve_decision. Defined.

End api.

(* ===================================================================== *)
(** ** What the two packages take from outside src/ *)
(* ===================================================================== *)

(** The constants of package controllers that the sources name but do not
    declare, and clientcmd.Write, the serializer of the kubeconfig
    document (deterministic, its byte format is its own business). *)
Class Externals : Type := {
  DefaultManagedNamespace : string;
  InfrastructureResourceName : string;   (* kubeconfig.go, line 46 *)
  clusterOperatorName : string;          (* watch_predicates.go *)
  infrastructureResourceName : string;   (* watch_predicates.go *)
  externalFeatureGateName : string;      (* watch_predicates.go *)
  clientcmd_Write : api.Config -> option string * option error;
  (** unicode.To(unicode.LowerCase, r) on a rune above MaxASCII: the
      lookup in the Unicode case tables. *)
  unicode_To_LowerCase : N -> N
}.

(** sigs.k8s.io/cluster-api/api/v1beta1 *)
Module clusterv1.
Definition ClusterLabelName : string := "cluster.x-k8s.io/cluster-name".
Definition ClusterSecretType : string := "cluster.x-k8s.io/secret".
End clusterv1.

Definition serviceAccountName : string := "cluster-capi-operator".

(* ===================================================================== *)
(** ** generateKubeconfig *)
(* ===================================================================== *)

Record kubeconfigOptions : Type := mkOptions {
  token : string;
  caCert : string;
  apiServerEnpoint : string;
  clusterName : string
}.

Inductive optionsField : Type :=
  | FieldToken | FieldCaCert | FieldApiServerEnpoint | FieldClusterName.

Definition fieldText (f : optionsField) : string :=
  match f with
  | FieldToken => "token"
  | FieldCaCert => "ca cert"
  | FieldApiServerEnpoint => "api server endpoint"
  | FieldClusterName => "cluster name"
  end.

Definition fieldEmpty (f : optionsField) (o : kubeconfigOptions) : bool :=
  match f with
  | FieldToken => bool_decide (token o = "")
  | FieldCaCert => bool_decide (caCert o = "")
  | FieldApiServerEnpoint => bool_decide (apiServerEnpoint o = "")
  | FieldClusterName => bool_decide (clusterName o = "")
  end.

(** The error of an empty input: its text names the field. *)
Definition errEmpty (f : optionsField) : error :=
  errors_New (fieldText f +:+ " can't be empty").

(** The precondition of the success path: no input is empty. *)
Definition allNonEmpty (o : kubeconfigOptions) : Prop :=
  token o <> "" /\ caCert o <> "" /\ apiServerEnpoint o <> "" /\ clusterName o <> "".

Section GenerateKubeconfig.
Context `{Externals}.

(** Modelled from the spec: generateKubeconfig (generate.go of package
    kubeconfig) is missing from src/; generate_test.go and the callers in
    kubeconfig.go are there.  Sections 3, 4.2 and 8 of the spec: each of
    the four inputs is checked for emptiness and an empty one fails the
    call with an error that names the field and with no document; the
    document has one cluster entry under the cluster name (endpoint and
    CA bytes), one context under the cluster name (that cluster, the auth
    entry "cluster-capi-operator", the managed namespace) and one auth
    entry "cluster-capi-operator" that carries the bearer token.  The
    scenario of section 8 and generate_test.go (lines 15 and 37) fix the
    token of the auth entry for the input "dGVzdA==" as "test": the input
    token is base64 text and the document carries what it decodes to; a
    token that does not decode fails the call. *)
Definition generateKubeconfig (options : kubeconfigOptions)
  : option api.Config * option error :=
  if fieldEmpty FieldToken options then (None, Some (errEmpty FieldToken))
  else if fieldEmpty FieldCaCert options then (None, Some (errEmpty FieldCaCert))
  else if fieldEmpty FieldApiServerEnpoint options
    then (None, Some (errEmpty FieldApiServerEnpoint))
  else if fieldEmpty FieldClusterName options
    then (None, Some (errEmpty FieldClusterName))
  else
    match base64.DecodeString (token options) with
    | (Some tok, None) =>
        let userName := "cluster-capi-operator" in
        (Some {| api.Clusters :=
                   {[ clusterName options :=
                        {| api.Server := apiServerEnpoint options;
                           api.CertificateAuthorityData := caCert options |} ]};
                 api.Contexts :=
                   {[ clusterName options :=
                        {| api.ContextCluster := clusterName options;
                           api.ContextAuthInfo := userName;
                           api.ContextNamespace := DefaultManagedNamespace |} ]};
                 api.AuthInfos := {[ userName := {| api.Token := tok |} ]} |},
         None)
    | (_, Some err) => (None, Some err)
    | (_, None) => (None, Some base64.CorruptInputError)
    end.

End GenerateKubeconfig.

(* ===================================================================== *)
(** ** The resource records *)
(* ===================================================================== *)

Module metav1.

(** An owner of a record. *)
Record OwnerReference : Type := mkOwnerReference {
  OwnerAPIVersion : string;       (* OwnerReference.APIVersion *)
  OwnerKind : string;             (* OwnerReference.Kind *)
  OwnerName : string;             (* OwnerReference.Name *)
  OwnerUID : string;              (* OwnerReference.UID *)
  Controller : option bool;
  BlockOwnerDeletion : option bool
}.

#[global] Instance OwnerReference_eq_dec : EqDecision OwnerReference.
Proof. solve_decision. Defined.

(** The metadata of a record: its identity, the revision the store gave it
    and what clients set on it (labels, annotations, owner references,
    finalizers).  What the server alone keeps (uid, creation timestamp,
    generation, managed fields) is not represented. *)
Record ObjectMeta : Type := mkObjectMeta {
  Name : string;
  Namespace : string;
  ResourceVersion : string;
  Labels : gmap string string;
  Annotations : gmap string string;
  OwnerReferences : list OwnerReference;
  Finalizers : list string
}.

#[global] Instance ObjectMeta_eq_dec : EqDecision ObjectMeta.
Proof. solve_decision. Defined.

End metav1.

Module corev1.

Record ObjectReference : Type := mkObjectReference {
  RefName : string                (* ObjectReference.Name *)
}.

Record ServiceAccount : Type := mkServiceAccount {
  Secrets : list ObjectReference
}.

(** Type is a keyword: the field Secret.Type is [SecretType]. *)
Record Secret : Type := mkSecret {
  ObjectMeta : metav1.ObjectMeta;
  Data : gmap string string;
  SecretType : string
}.

#[global] Instance Secret_eq_dec : EqDecision Secret.
Proof. solve_decision. Defined.

End corev1.

Module configv1.

Record PlatformStatus : Type := mkPlatformStatus {
  PlatformType : string           (* PlatformStatus.Type *)
}.

Record InfrastructureStatus : Type := mkInfrastructureStatus {
  InfrastructureName : string;
  PlatformStatus_ : option PlatformStatus   (* a pointer, nil when absent *)
}.

Record Infrastructure : Type := mkInfrastructure {
  InfrastructureObjName : string;           (* ObjectMeta.Name *)
  Status : InfrastructureStatus
}.

Record ClusterOperator : Type := mkClusterOperator {
  ClusterOperatorObjName : string           (* ObjectMeta.Name *)
}.

Record FeatureGate : Type := mkFeatureGate {
  FeatureGateObjName : string               (* ObjectMeta.Name *)
}.

(** One named condition of the ClusterOperator status. *)
Record ClusterOperatorStatusCondition : Type := mkCondition {
  ConditionStatus : bool;                   (* ConditionTrue / ConditionFalse *)
  ConditionMessage : string
}.

End configv1.

(** client.ObjectKey: namespace and name. *)
Definition ObjectKey : Type := (string * string)%type.

Definition ObjectKeyFromObject (obj : corev1.Secret) : ObjectKey :=
  (metav1.Namespace (corev1.ObjectMeta obj), metav1.Name (corev1.ObjectMeta obj)).

(* ===================================================================== *)
(** ** The store *)
(* ===================================================================== *)

Inductive Kind : Type :=
  | KindInfrastructure | KindServiceAccount | KindSecret | KindClusterOperator.

(** The shared versioned store behind client.Client, as far as the
    kubeconfig controller sees it: typed records by key, the revision the
    store last gave out, the condition set of the cluster operator status
    record, and what the store answers when it is not able to serve a kind
    (connectivity, server error, a lost conflict): [ReadFault k = Some err]
    fails every read of kind k with err, [WriteFault] every write. *)
Record Store : Type := mkStore {
  Infrastructures : gmap string configv1.Infrastructure;
  ServiceAccounts : gmap ObjectKey corev1.ServiceAccount;
  SecretsOf : gmap ObjectKey corev1.Secret;
  Revision : N;
  Conditions : gmap string configv1.ClusterOperatorStatusCondition;
  ReadFault : Kind -> option error;
  WriteFault : Kind -> option error
}.

Definition setSecrets (m : gmap ObjectKey corev1.Secret) (rev : N) (w : Store) : Store :=
  {| Infrastructures := Infrastructures w;
     ServiceAccounts := ServiceAccounts w;
     SecretsOf := m;
     Revision := rev;
     Conditions := Conditions w;
     ReadFault := ReadFault w;
     WriteFault := WriteFault w |}.

Definition setConditions (c : gmap string configv1.ClusterOperatorStatusCondition)
  (w : Store) : Store :=
  {| Infrastructures := Infrastructures w;
     ServiceAccounts := ServiceAccounts w;
     SecretsOf := SecretsOf w;
     Revision := Revision w;
     Conditions := c;
     ReadFault := ReadFault w;
     WriteFault := WriteFault w |}.

(** The calls of the controller run against the store and may fail: a
    state and error monad.  A failed call leaves the state it reached. *)
Definition M (A : Type) : Type := Store -> (error + A) * Store.

#[global] Instance M_ret : MRet M := fun A (x : A) w => (inr x, w).
#[global] Instance M_bind : MBind M := fun A B (f : A -> M B) (c : M A) w =>
  match c w with
  | (inl err, w') => (inl err, w')
  | (inr x, w') => f x w'
  end.

Definition failM {A : Type} (err : error) : M A := fun w => (inl err, w).

(** What a Go function with a single [error] result returns. *)
Definition errorOf {A : Type} (r : error + A) : option error :=
  match r with inl err => Some err | inr _ => None end.

Definition quote : string := String (ascii_of_nat 34) EmptyString.

(** apierrors.NewNotFound / NewAlreadyExists *)
Definition NewNotFound (resource name : string) : error :=
  {| ErrStatus := Some StatusReasonNotFound;
     Error := resource +:+ " " +:+ quote +:+ name +:+ quote +:+ " not found" |}.

Definition NewAlreadyExists (resource name : string) : error :=
  {| ErrStatus := Some StatusReasonAlreadyExists;
     Error := resource +:+ " " +:+ quote +:+ name +:+ quote +:+ " already exists" |}.

Definition NewConflict (resource name : string) : error :=
  {| ErrStatus := Some StatusReasonConflict;
     Error := "Operation cannot be fulfilled on " +:+ resource +:+ " "
              +:+ quote +:+ name +:+ quote
              +:+ ": the object has been modified" |}.

(** r.Get, at the three types the controller reads. *)
Definition GetInfrastructure (name : string) : M configv1.Infrastructure := fun w =>
  match ReadFault w KindInfrastructure with
  | Some err => (inl err, w)
  | None =>
      match Infrastructures w !! name with
      | Some infra => (inr infra, w)
      | None => (inl (NewNotFound "infrastructures.config.openshift.io" name), w)
      end
  end.

Definition GetServiceAccount (key : ObjectKey) : M corev1.ServiceAccount := fun w =>
  match ReadFault w KindServiceAccount with
  | Some err => (inl err, w)
  | None =>
      match ServiceAccounts w !! key with
      | Some sa => (inr sa, w)
      | None => (inl (NewNotFound "serviceaccounts" key.2), w)
      end
  end.

Definition GetSecret (key : ObjectKey) : M corev1.Secret := fun w =>
  match ReadFault w KindSecret with
  | Some err => (inl err, w)
  | None =>
      match SecretsOf w !! key with
      | Some s => (inr s, w)
      | None => (inl (NewNotFound "secrets" key.2), w)
      end
  end.

(* ===================================================================== *)
(** ** JSON merge patches of a Secret (client.MergeFrom) *)
(* ===================================================================== *)

(** A patch names what changed between two snapshots.  A scalar field is
    in the patch with its new value when it differs; a key of a map field
    is in the patch with [Some v] (set) or [None] (null: remove). *)
Definition scalarDiff (before after : string) : option string :=
  if decide (before = after) then None else Some after.

Definition scalarApply (p : option string) (cur : string) : string :=
  default cur p.

Definition mapDiff (before after : gmap string string) : gmap string (option string) :=
  merge (fun b a =>
           match b, a with
           | Some x, Some y => if decide (x = y) then None else Some (Some y)
           | None, Some y => Some (Some y)
           | Some _, None => Some None
           | None, None => None
           end) before after.

Definition mapApply (p : gmap string (option string)) (cur : gmap string string)
  : gmap string string :=
  merge (fun pv cv =>
           match pv with
           | Some (Some y) => Some y
           | Some None => None
           | None => cv
           end) p cur.

(** A list field is replaced as a whole: it is in the patch with its new
    value when it differs (an empty list is sent as null). *)
Definition listDiff {A : Type} `{EqDecision A} (before after : list A) : option (list A) :=
  if decide (before = after) then None else Some after.

Definition listApply {A : Type} (p : option (list A)) (cur : list A) : list A :=
  default cur p.

Record SecretPatch : Type := mkSecretPatch {
  PatchResourceVersion : option string;
  PatchLabels : gmap string (option string);
  PatchAnnotations : gmap string (option string);
  PatchOwnerReferences : option (list metav1.OwnerReference);
  PatchFinalizers : option (list string);
  PatchData : gmap string (option string);
  PatchType : option string
}.

(** client.MergeFrom(before).Data(after): name and namespace are not in the
    patch, [mutate] below refuses an object whose key changed. *)
Definition MergeFrom (before after : corev1.Secret) : SecretPatch :=
  let mb := corev1.ObjectMeta before in
  let ma := corev1.ObjectMeta after in
  {| PatchResourceVersion :=
       scalarDiff (metav1.ResourceVersion mb) (metav1.ResourceVersion ma);
     PatchLabels := mapDiff (metav1.Labels mb) (metav1.Labels ma);
     PatchAnnotations := mapDiff (metav1.Annotations mb) (metav1.Annotations ma);
     PatchOwnerReferences :=
       listDiff (metav1.OwnerReferences mb) (metav1.OwnerReferences ma);
     PatchFinalizers := listDiff (metav1.Finalizers mb) (metav1.Finalizers ma);
     PatchData := mapDiff (corev1.Data before) (corev1.Data after);
     PatchType := scalarDiff (corev1.SecretType before) (corev1.SecretType after) |}.

Definition applyPatch (p : SecretPatch) (cur : corev1.Secret) : corev1.Secret :=
  let mc := corev1.ObjectMeta cur in
  {| corev1.ObjectMeta :=
       {| metav1.Name := metav1.Name mc;
          metav1.Namespace := metav1.Namespace mc;
          metav1.ResourceVersion :=
            scalarApply (PatchResourceVersion p) (metav1.ResourceVersion mc);
          metav1.Labels := mapApply (PatchLabels p) (metav1.Labels mc);
          metav1.Annotations := mapApply (PatchAnnotations p) (metav1.Annotations mc);
          metav1.OwnerReferences :=
            listApply (PatchOwnerReferences p) (metav1.OwnerReferences mc);
          metav1.Finalizers := listApply (PatchFinalizers p) (metav1.Finalizers mc) |};
     corev1.Data := mapApply (PatchData p) (corev1.Data cur);
     corev1.SecretType := scalarApply (PatchType p) (corev1.SecretType cur) |}.

Definition withResourceVersion (rv : string) (s : corev1.Secret) : corev1.Secret :=
  let m := corev1.ObjectMeta s in
  {| corev1.ObjectMeta :=
       {| metav1.Name := metav1.Name m;
          metav1.Namespace := metav1.Namespace m;
          metav1.ResourceVersion := rv;
          metav1.Labels := metav1.Labels m;
          metav1.Annotations := metav1.Annotations m;
          metav1.OwnerReferences := metav1.OwnerReferences m;
          metav1.Finalizers := metav1.Finalizers m |};
     corev1.Data := corev1.Data s;
     corev1.SecretType := corev1.SecretType s |}.

(* ===================================================================== *)
(** ** Store writes *)
(* ===================================================================== *)

(** The revision of a record belongs to the store: a record is stored under
    the next revision whenever a write changes it, and keeps its revision
    when a write changes nothing. *)
Definition nextRevision (w : Store) : N := (Revision w + 1)%N.

(** r.Create: the record must be new and must not name a revision. *)
Definition Create (obj : corev1.Secret) : M corev1.Secret := fun w =>
  let key := ObjectKeyFromObject obj in
  match WriteFault w KindSecret with
  | Some err => (inl err, w)
  | None =>
      if bool_decide (metav1.ResourceVersion (corev1.ObjectMeta obj) <> "") then
        (inl (errors_New "resourceVersion should not be set on objects to be created"), w)
      else
        match SecretsOf w !! key with
        | Some _ => (inl (NewAlreadyExists "secrets" key.2), w)
        | None =>
            let stored := withResourceVersion (pretty (nextRevision w)) obj in
            (inr stored, setSecrets (<[key := stored]> (SecretsOf w)) (nextRevision w) w)
        end
  end.

(** r.Patch with a merge patch: the patch is applied to the stored record.
    A revision named by the patched record is a precondition on the stored
    one; a patch that removes it (or leaves it) asks for no check. *)
Definition Patch (obj : corev1.Secret) (p : SecretPatch) : M corev1.Secret := fun w =>
  let key := ObjectKeyFromObject obj in
  match WriteFault w KindSecret with
  | Some err => (inl err, w)
  | None =>
      match SecretsOf w !! key with
      | None => (inl (NewNotFound "secrets" key.2), w)
      | Some cur =>
          let new := applyPatch p cur in
          let rv := metav1.ResourceVersion (corev1.ObjectMeta new) in
          let currv := metav1.ResourceVersion (corev1.ObjectMeta cur) in
          if bool_decide (rv <> "" /\ rv <> currv) then
            (inl (NewConflict "secrets" key.2), w)
          else if decide (withResourceVersion currv new = cur) then (inr cur, w)
          else
            let stored := withResourceVersion (pretty (nextRevision w)) new in
            (inr stored, setSecrets (<[key := stored]> (SecretsOf w)) (nextRevision w) w)
      end
  end.

(* ===================================================================== *)
(** ** controllerutil.CreateOrPatch *)
(* ===================================================================== *)

Inductive OperationResult : Type :=
  | OperationResultNone | OperationResultCreated | OperationResultUpdated.

(** A MutateFn is a closure over the object handed to CreateOrPatch: it
    reads the object as the Get left it and writes its fields. *)
Definition MutateFn : Type := corev1.Secret -> error + corev1.Secret.

Definition mutate (f : MutateFn) (key : ObjectKey) (obj : corev1.Secret)
  : error + corev1.Secret :=
  match f obj with
  | inl err => inl err
  | inr obj' =>
      if bool_decide (ObjectKeyFromObject obj' = key) then inr obj'
      else inl (errors_New "MutateFn cannot mutate object name and/or object namespace")
  end.

(** Get the object; when it is not found, mutate the given object and
    create it; when it is there, mutate what was read and send the merge
    patch between the two snapshots, unless they are equal.  (A Secret has
    no status: the status patch of the library never applies.) *)
Definition CreateOrPatch (obj : corev1.Secret) (f : MutateFn) : M OperationResult := fun w =>
  let key := ObjectKeyFromObject obj in
  match GetSecret key w with
  | (inl err, w1) =>
      if IsNotFound err then
        match mutate f key obj with
        | inl err' => (inl err', w1)
        | inr obj1 =>
            match Create obj1 w1 with
            | (inl err', w2) => (inl err', w2)
            | (inr _, w2) => (inr OperationResultCreated, w2)
            end
        end
      else (inl err, w1)
  | (inr before, w1) =>
      match mutate f key before with
      | inl err' => (inl err', w1)
      | inr after =>
          if decide (before = after) then (inr OperationResultNone, w1)
          else
            match Patch after (MergeFrom before after) w1 with
            | (inl err', w2) => (inl err', w2)
            | (inr _, w2) => (inr OperationResultUpdated, w2)
            end
      end
  end.

(* ===================================================================== *)
(** ** operatorstatus.ClusterOperatorStatusClient *)
(* ===================================================================== *)

Definition writeConditions
  (upd : gmap string configv1.ClusterOperatorStatusCondition ->
         gmap string configv1.ClusterOperatorStatusCondition) : M unit := fun w =>
  match ReadFault w KindClusterOperator with
  | Some err => (inl err, w)
  | None =>
      match WriteFault w KindClusterOperator with
      | Some err => (inl err, w)
      | None => (inr tt, setConditions (upd (Conditions w)) w)
      end
  end.

(** Modelled from the spec: SetStatusAvailable of package operatorstatus is
    missing from src/.  Section 4.5: the outcome Available is applied to the
    aggregate status record by a read, modify, write cycle that touches the
    caller's condition entries only and that surfaces an error when the
    store does not take the write. *)
Definition SetStatusAvailable : M unit :=
  writeConditions (fun c =>
    <["Available" := configv1.mkCondition true ""]>
      (<["Degraded" := configv1.mkCondition false ""]> c)).

(** Modelled from the spec: SetStatusDegraded of package operatorstatus is
    missing from src/.  Section 4.5 and 7: the outcome Degraded is applied
    with its cause as the message of the Degraded condition. *)
Definition SetStatusDegraded (reconcileErr : error) : M unit :=
  writeConditions (fun c =>
    <["Degraded" := configv1.mkCondition true (Error reconcileErr)]> c).

(* ===================================================================== *)
(** ** unicode/utf8, unicode and strings.ToLower *)
(* ===================================================================== *)

Module utf8.

Definition RuneError : N := 65533.     (* U+FFFD *)
Definition RuneSelf : N := 128.
Definition MaxRune : N := 1114111.     (* U+10FFFF *)

Definition inRange (lo hi b : N) : bool := (lo <=? b)%N && (b <=? hi)%N.

(** The table [first] with its accept ranges: what the first byte of a
    sequence announces, and the bounds of the second byte. *)
Inductive firstByte : Type :=
  | AS                       (* ASCII, one byte *)
  | XX                       (* never the first byte of a sequence *)
  | S2 (lo hi : N)
  | S3 (lo hi : N)
  | S4 (lo hi : N).

Definition first (s0 : N) : firstByte :=
  if (s0 <? 128)%N then AS
  else if (s0 <? 194)%N then XX
  else if (s0 <=? 223)%N then S2 128 191
  else if (s0 =? 224)%N then S3 160 191
  else if (s0 <=? 236)%N then S3 128 191
  else if (s0 =? 237)%N then S3 128 159
  else if (s0 <=? 239)%N then S3 128 191
  else if (s0 =? 240)%N then S4 144 191
  else if (s0 <=? 243)%N then S4 128 191
  else if (s0 =? 244)%N then S4 128 143
  else XX.

Definition cont (b : N) : N := N.land b 63.

(** The runes of a string as a range loop reads them (DecodeRuneInString
    at each position): a byte that starts no well-formed sequence is one
    RuneError of width one. *)
Fixpoint runes (s : list ascii) : list N :=
  match s with
  | [] => []
  | c0 :: t0 =>
      let s0 := N_of_ascii c0 in
      match first s0 with
      | AS => s0 :: runes t0
      | XX => RuneError :: runes t0
      | S2 lo hi =>
          match t0 with
          | c1 :: t1 =>
              let s1 := N_of_ascii c1 in
              if inRange lo hi s1
              then N.lor (N.shiftl (N.land s0 31) 6) (cont s1) :: runes t1
              else RuneError :: runes t0
          | _ => RuneError :: runes t0
          end
      | S3 lo hi =>
          match t0 with
          | c1 :: c2 :: t2 =>
              let s1 := N_of_ascii c1 in
              let s2 := N_of_ascii c2 in
              if inRange lo hi s1 && inRange 128 191 s2
              then N.lor (N.lor (N.shiftl (N.land s0 15) 12) (N.shiftl (cont s1) 6))
                         (cont s2) :: runes t2
              else RuneError :: runes t0
          | _ => RuneError :: runes t0
          end
      | S4 lo hi =>
          match t0 with
          | c1 :: c2 :: c3 :: t3 =>
              let s1 := N_of_ascii c1 in
              let s2 := N_of_ascii c2 in
              let s3 := N_of_ascii c3 in
              if inRange lo hi s1 && inRange 128 191 s2 && inRange 128 191 s3
              then N.lor (N.lor (N.shiftl (N.land s0 7) 18) (N.shiftl (cont s1) 12))
                         (N.lor (N.shiftl (cont s2) 6) (cont s3)) :: runes t3
              else RuneError :: runes t0
          | _ => RuneError :: runes t0
          end
      end
  end.

Definition byte (n : N) : ascii := ascii_of_N (N.land n 255).

(** AppendRune: a surrogate or a rune past MaxRune is written as RuneError. *)
Definition EncodeRune (r : N) : list ascii :=
  if (r <=? 127)%N then [byte r]
  else if (r <=? 2047)%N then
    [byte (N.lor 192 (N.shiftr r 6)); byte (N.lor 128 (cont r))]
  else if (MaxRune <? r)%N || ((55296 <=? r)%N && (r <=? 57343)%N) then
    [byte 239; byte 191; byte 189]
  else if (r <=? 65535)%N then
    [byte (N.lor 224 (N.shiftr r 12)); byte (N.lor 128 (cont (N.shiftr r 6)));
     byte (N.lor 128 (cont r))]
  else
    [byte (N.lor 240 (N.shiftr r 18)); byte (N.lor 128 (cont (N.shiftr r 12)));
     byte (N.lor 128 (cont (N.shiftr r 6))); byte (N.lor 128 (cont r))].

End utf8.

Definition isUpperByte (n : N) : bool := (65 <=? n)%N && (n <=? 90)%N.

(** c += 'a' - 'A' on the bytes 'A' .. 'Z' *)
Definition lowerByte (c : ascii) : ascii :=
  let n := N_of_ascii c in
  if isUpperByte n then ascii_of_N (n + 32) else c.

Section Strings.
Context `{Externals}.

(** unicode.ToLower *)
Definition unicode_ToLower (r : N) : N :=
  if (r <=? 127)%N then (if isUpperByte r then r + 32 else r)%N
  else unicode_To_LowerCase r.

(** strings.Map: every rune of the string is mapped and written back in
    UTF-8 (a rune that is not changed is written back as it was read; an
    ill-formed byte is read, and written, as RuneError). *)
Definition strings_Map (mapping : N -> N) (s : list ascii) : list ascii :=
  flat_map (fun c => utf8.EncodeRune (mapping c)) (utf8.runes s).

(** strings.ToLower: an ASCII string is lowered byte by byte (and returned
    as it is when it has no upper-case letter), any other string goes
    through strings.Map with unicode.ToLower. *)
Definition ToLower (s : string) : string :=
  let bytes := list_ascii_of_string s in
  let isASCII := forallb (fun c => (N_of_ascii c <? utf8.RuneSelf)%N) bytes in
  let hasUpper := existsb (fun c => isUpperByte (N_of_ascii c)) bytes in
  if isASCII then
    if negb hasUpper then s
    else string_of_list_ascii (map lowerByte bytes)
  else string_of_list_ascii (strings_Map unicode_ToLower bytes).

End Strings.

(** strings.HasPrefix *)
Definition HasPrefix (s pre : string) : bool := String.prefix pre s.

(* ===================================================================== *)
(** ** package kubeconfig: KubeconfigReconciler *)
(* ===================================================================== *)

(** The reconciler: its client is the store; [RestCfgHost] is RestCfg.Host;
    [r_clusterName] is the unexported field clusterName, set by Reconcile. *)
Record KubeconfigReconciler : Type := mkReconciler {
  SupportedPlatforms : gmap string bool;
  RestCfgHost : string;
  r_clusterName : string
}.

Definition setClusterName (name : string) (r : KubeconfigReconciler) : KubeconfigReconciler :=
  {| SupportedPlatforms := SupportedPlatforms r;
     RestCfgHost := RestCfgHost r;
     r_clusterName := name |}.

(** ctrl.Result *)
Record Result : Type := mkResult {
  Requeue : bool;
  RequeueAfter : N
}.

Definition emptyResult : Result := {| Requeue := false; RequeueAfter := 0 |}.

(** fmt.Errorf(pre + "%v", err) around a call that failed. *)
Definition wrapErr {A : Type} (pre : string) (c : M A) : M A := fun w =>
  match c w with
  | (inl err, w') => (inl (Errorf pre err), w')
  | (inr x, w') => (inr x, w')
  end.

(** A Go call returning a pointer and an error, followed by the use of the
    pointer: the error is returned when there is one; a nil pointer with a
    nil error panics at the dereference. *)
Definition nilDereference : error :=
  errors_New "runtime error: invalid memory address or nil pointer dereference".

Definition orFail {A : Type} (r : option A * option error) : M A :=
  match r with
  | (_, Some err) => failM err
  | (Some v, None) => mret v
  | (None, None) => failM nilDereference
  end.

(** The token secret reference: the range loop has no break, the last
    reference with the prefix wins. *)
Definition findTokenSecretRef (pre : string) (refs : list corev1.ObjectReference)
  : option corev1.ObjectReference :=
  fold_left (fun found secretRef =>
               if HasPrefix (corev1.RefName secretRef) pre then Some secretRef else found)
            refs None.

Section Kubeconfig.
Context `{Externals}.

(** Lines 140 to 152: the secret that is to be. *)
Definition kubeconfigSecretFor (name out : string) : corev1.Secret :=
  {| corev1.ObjectMeta :=
       {| metav1.Name := name +:+ "-kubeconfig";
          metav1.Namespace := DefaultManagedNamespace;
          metav1.ResourceVersion := "";
          metav1.Labels := {[ clusterv1.ClusterLabelName := name ]};
          metav1.Annotations := ∅;
          metav1.OwnerReferences := [];
          metav1.Finalizers := [] |};
     corev1.Data := {[ "value" := out ]};
     corev1.SecretType := clusterv1.ClusterSecretType |}.

(** Lines 155 to 159: the closure handed to CreateOrPatch.  It assigns the
    whole ObjectMeta, the Data and the Type of the copy. *)
Definition mutateFn (kubeconfigSecretCopy : corev1.Secret) : MutateFn :=
  fun kubeconfigSecret =>
    inr {| corev1.ObjectMeta := corev1.ObjectMeta kubeconfigSecretCopy;
           corev1.Data := corev1.Data kubeconfigSecretCopy;
           corev1.SecretType := corev1.SecretType kubeconfigSecretCopy |}.

(** Lines 154 to 162. *)
Definition upsertKubeconfigSecret (kubeconfigSecret : corev1.Secret) : M OperationResult :=
  let kubeconfigSecretCopy := kubeconfigSecret in
  CreateOrPatch kubeconfigSecret (mutateFn kubeconfigSecretCopy).

Definition reconcileKubeconfig (r : KubeconfigReconciler) : M unit :=
  let saKey : ObjectKey := (DefaultManagedNamespace, serviceAccountName) in
  serviceAccount ←
    wrapErr ("error retrieving ServiceAccount " +:+ serviceAccountName +:+ ": ")
            (GetServiceAccount saKey);
  let pre := serviceAccountName +:+ "-token" in
  match findTokenSecretRef pre (corev1.Secrets serviceAccount) with
  | None =>
      failM (errors_New ("unable to find token secret for service account "
                         +:+ serviceAccountName))
  | Some tokenSecretRef =>
      let tokenSecretKey : ObjectKey :=
        (DefaultManagedNamespace, corev1.RefName tokenSecretRef) in
      tokenSecret ← wrapErr "unable to retrieve Secret object: " (GetSecret tokenSecretKey);
      kubeconfig ←
        wrapErr "error generating kubeconfig: "
          (orFail (generateKubeconfig
                     {| token := default "" (corev1.Data tokenSecret !! "token");
                        caCert := default "" (corev1.Data tokenSecret !! "ca.crt");
                        apiServerEnpoint := RestCfgHost r;
                        clusterName := r_clusterName r |}));
      out ← wrapErr "error writing kubeconfig: " (orFail (clientcmd_Write kubeconfig));
      _ ← wrapErr "error reconciling kubeconfig secret: "
            (upsertKubeconfigSecret (kubeconfigSecretFor (r_clusterName r) out));
      mret tt
  end.

(** What a status write leaves to return: its error, when it has one. *)
Definition finish (r : KubeconfigReconciler) (onStatusError : error -> error)
  (otherwise : option error) (res : (error + unit) * Store)
  : (Result * option error) * KubeconfigReconciler * Store :=
  match res with
  | (inl err, w) => ((emptyResult, Some (onStatusError err)), r, w)
  | (inr _, w) => ((emptyResult, otherwise), r, w)
  end.

Definition Reconcile (r : KubeconfigReconciler) (w : Store)
  : (Result * option error) * KubeconfigReconciler * Store :=
  match GetInfrastructure InfrastructureResourceName w with
  | (inl err, w) =>
      finish r (Errorf "error syncing ClusterOperatorStatus: ") (Some err)
             (SetStatusDegraded err w)
  | (inr infra, w) =>
      match configv1.PlatformStatus_ (configv1.Status infra) with
      | None => finish r id None (SetStatusAvailable w)
      | Some platformStatus =>
          let r := setClusterName (configv1.InfrastructureName (configv1.Status infra)) r in
          match SupportedPlatforms r !! ToLower (configv1.PlatformType platformStatus) with
          | None => finish r id None (SetStatusAvailable w)
          | Some _ =>
              match reconcileKubeconfig r w with
              | (inl err, w) =>
                  finish r (Errorf "error syncing ClusterOperatorStatus: ") (Some err)
                         (SetStatusDegraded err w)
              | (inr _, w) => finish r id None (SetStatusAvailable w)
              end
          end
      end
  end.

End Kubeconfig.

(* ===================================================================== *)
(** ** package controllers: watch_predicates.go *)
(* ===================================================================== *)

(** runtime.Object: the dynamic type of the object a notification carries,
    as a tagged variant.  [ObjNil] is the nil interface value; [ObjOther]
    is an object of any kind the filters do not name. *)
Inductive Object : Type :=
  | ObjNil
  | ObjClusterOperator (co : configv1.ClusterOperator)
  | ObjInfrastructure (infra : configv1.Infrastructure)
  | ObjFeatureGate (featureGate : configv1.FeatureGate)
  | ObjSecret (secret : corev1.Secret)
  | ObjOther (kind name : string).

Module event.

Record CreateEvent : Type := mkCreateEvent { CreateObject : Object }.
Record UpdateEvent : Type := mkUpdateEvent { ObjectOld : Object; ObjectNew : Object }.
Record GenericEvent : Type := mkGenericEvent { GenericObject : Object }.
Record DeleteEvent : Type := mkDeleteEvent { DeleteObject : Object }.

End event.

Module predicate.

Record Funcs : Type := mkFuncs {
  CreateFunc : event.CreateEvent -> bool;
  UpdateFunc : event.UpdateEvent -> bool;
  GenericFunc : event.GenericEvent -> bool;
  DeleteFunc : event.DeleteEvent -> bool
}.

End predicate.

Section WatchPredicates.
Context `{Externals}.

(** The type assertion to a ClusterOperator pointer and, when it holds,
    the comparison of GetName() with the singleton name. *)
Definition isClusterOperatorCluster (obj : Object) : bool :=
  match obj with
  | ObjClusterOperator co =>
      bool_decide (configv1.ClusterOperatorObjName co = clusterOperatorName)
  | _ => false
  end.

Definition clusterOperatorPredicates : predicate.Funcs :=
  {| predicate.CreateFunc := fun e => isClusterOperatorCluster (event.CreateObject e);
     predicate.UpdateFunc := fun e => isClusterOperatorCluster (event.ObjectNew e);
     predicate.GenericFunc := fun e => isClusterOperatorCluster (event.GenericObject e);
     predicate.DeleteFunc := fun e => isClusterOperatorCluster (event.DeleteObject e) |}.

Definition isInfrastructureCluster (obj : Object) : bool :=
  match obj with
  | ObjInfrastructure infra =>
      bool_decide (configv1.InfrastructureObjName infra = infrastructureResourceName)
  | _ => false
  end.

Definition infrastructurePredicates : predicate.Funcs :=
  {| predicate.CreateFunc := fun e => isInfrastructureCluster (event.CreateObject e);
     predicate.UpdateFunc := fun e => isInfrastructureCluster (event.ObjectNew e);
     predicate.GenericFunc := fun e => isInfrastructureCluster (event.GenericObject e);
     predicate.DeleteFunc := fun e => isInfrastructureCluster (event.DeleteObject e) |}.

Definition isFeatureGateCluster (obj : Object) : bool :=
  match obj with
  | ObjFeatureGate featureGate =>
      bool_decide (configv1.FeatureGateObjName featureGate = externalFeatureGateName)
  | _ => false
  end.

Definition featureGatePredicates : predicate.Funcs :=
  {| predicate.CreateFunc := fun e => isFeatureGateCluster (event.CreateObject e);
     predicate.UpdateFunc := fun e => isFeatureGateCluster (event.ObjectNew e);
     predicate.GenericFunc := fun e => isFeatureGateCluster (event.GenericObject e);
     predicate.DeleteFunc := fun e => isFeatureGateCluster (event.DeleteObject e) |}.

End WatchPredicates.

(* ===================================================================== *)
(** ** A concrete environment, for running the definitions *)
(* ===================================================================== *)

(** A line-per-entry rendering of the document: a stand-in for the
    serializer, which the controller treats as an opaque function. *)
Definition renderConfig (cfg : api.Config) : option string * option error :=
  (Some (String.concat ";"
           (map (fun kv : string * api.Cluster =>
                   "cluster " +:+ kv.1 +:+ " " +:+ api.Server kv.2
                   +:+ " " +:+ api.CertificateAuthorityData kv.2)
                (map_to_list (api.Clusters cfg))
            ++ map (fun kv : string * api.Context =>
                      "context " +:+ kv.1 +:+ " " +:+ api.ContextCluster kv.2
                      +:+ " " +:+ api.ContextAuthInfo kv.2
                      +:+ " " +:+ api.ContextNamespace kv.2)
                   (map_to_list (api.Contexts cfg))
            ++ map (fun kv : string * api.AuthInfo =>
                      "user " +:+ kv.1 +:+ " " +:+ api.Token kv.2)
                   (map_to_list (api.AuthInfos cfg)))),
   None).

Definition sampleExternals : Externals :=
  {| DefaultManagedNamespace := "openshift-cluster-api";
     InfrastructureResourceName := "cluster";
     clusterOperatorName := "cluster-api";
     infrastructureResourceName := "cluster";
     externalFeatureGateName := "cluster";
     clientcmd_Write := renderConfig;
     unicode_To_LowerCase := fun r => r |}.

Definition noFault : Kind -> option error := fun _ => None.

Definition sampleInfrastructure (platform : string) : configv1.Infrastructure :=
  {| configv1.InfrastructureObjName := "cluster";
     configv1.Status :=
       {| configv1.InfrastructureName := "test";
          configv1.PlatformStatus_ := Some {| configv1.PlatformType := platform |} |} |}.

Definition sampleTokenSecret : corev1.Secret :=
  {| corev1.ObjectMeta :=
       {| metav1.Name := "cluster-capi-operator-token-x7k2p";
          metav1.Namespace := "openshift-cluster-api";
          metav1.ResourceVersion := "1";
          metav1.Labels := ∅;
          metav1.Annotations := ∅;
          metav1.OwnerReferences := [];
          metav1.Finalizers := [] |};
     corev1.Data := {[ "token" := "dGVzdA=="; "ca.crt" := "dGVzdA==" ]};
     corev1.SecretType := "kubernetes.io/service-account-token" |}.

Definition sampleServiceAccount : corev1.ServiceAccount :=
  {| corev1.Secrets :=
       [ {| corev1.RefName := "cluster-capi-operator-dockercfg-9xq4z" |};
         {| corev1.RefName := "cluster-capi-operator-token-x7k2p" |} ] |}.

(** A store with the infrastructure record, the service account and its
    token secret, and nothing yet derived. *)
Definition sampleStore (platform : string) : Store :=
  {| Infrastructures := {[ "cluster" := sampleInfrastructure platform ]};
     ServiceAccounts :=
       {[ ("openshift-cluster-api", "cluster-capi-operator") := sampleServiceAccount ]};
     SecretsOf :=
       {[ ("openshift-cluster-api", "cluster-capi-operator-token-x7k2p") := sampleTokenSecret ]};
     Revision := 1;
     Conditions := ∅;
     ReadFault := noFault;
     WriteFault := noFault |}.

Definition sampleReconciler : KubeconfigReconciler :=
  {| SupportedPlatforms := {[ "aws" := true ]};
     RestCfgHost := "https://example.com";
     r_clusterName := "" |}.

(* ===================================================================== *)
(** ** Vocabulary of the statements *)
(* ===================================================================== *)

(** What a write of the status record runs into, if anything: the cycle
    reads the record, then writes it. *)
Definition statusFault (w : Store) : option error :=
  match ReadFault w KindClusterOperator with
  | Some err => Some err
  | None => WriteFault w KindClusterOperator
  end.

Definition rvOf (s : corev1.Secret) : string :=
  metav1.ResourceVersion (corev1.ObjectMeta s).

(** Two records agree on labels, annotations, data and type. *)
Definition sameContent (s d : corev1.Secret) : Prop :=
  metav1.Labels (corev1.ObjectMeta s) = metav1.Labels (corev1.ObjectMeta d)
  /\ metav1.Annotations (corev1.ObjectMeta s) = metav1.Annotations (corev1.ObjectMeta d)
  /\ corev1.Data s = corev1.Data d
  /\ corev1.SecretType s = corev1.SecretType d.

(** Two records agree on everything a client may set apart from the
    identity: labels, annotations, owner references, finalizers, data and
    type. *)
Definition sameClientFields (s d : corev1.Secret) : Prop :=
  sameContent s d
  /\ metav1.OwnerReferences (corev1.ObjectMeta s)
     = metav1.OwnerReferences (corev1.ObjectMeta d)
  /\ metav1.Finalizers (corev1.ObjectMeta s) = metav1.Finalizers (corev1.ObjectMeta d).

(** The typed records of two stores are the same: nothing was created,
    modified or given a revision between them. *)
Definition sameRecords (w w' : Store) : Prop :=
  Infrastructures w' = Infrastructures w
  /\ ServiceAccounts w' = ServiceAccounts w
  /\ SecretsOf w' = SecretsOf w
  /\ Revision w' = Revision w.

(** What it is for a filter to decide by kind and singleton name: each of
    its four functions admits a notification exactly when the object it
    carries (the new snapshot, for an update) satisfies [accepts]. *)
Definition decidesBy (p : predicate.Funcs) (accepts : Object -> Prop) : Prop :=
  (forall obj, predicate.CreateFunc p (event.mkCreateEvent obj) = true <-> accepts obj)
  /\ (forall old new,
        predicate.UpdateFunc p (event.mkUpdateEvent old new) = true <-> accepts new)
  /\ (forall obj, predicate.GenericFunc p (event.mkGenericEvent obj) = true <-> accepts obj)
  /\ (forall obj, predicate.DeleteFunc p (event.mkDeleteEvent obj) = true <-> accepts obj).

(** A kubeconfig secret left by somebody else's hands: the payload, label
    and type of the controller, and an annotation of its own. *)
Definition annotatedKubeconfigSecret : corev1.Secret :=
  {| corev1.ObjectMeta :=
       {| metav1.Name := "test-kubeconfig";
          metav1.Namespace := "openshift-cluster-api";
          metav1.ResourceVersion := "7";
          metav1.Labels := {[ clusterv1.ClusterLabelName := "test" ]};
          metav1.Annotations := {[ "example.com/owner" := "team-a" ]};
          metav1.OwnerReferences := [];
          metav1.Finalizers := [] |};
     corev1.Data := {[ "value" := "payload" ]};
     corev1.SecretType := clusterv1.ClusterSecretType |}.

(** A kubeconfig secret with the very labels, annotations, payload and type
    of the controller, held by a finalizer and owned by another record. *)
Definition ownedKubeconfigSecret : corev1.Secret :=
  {| corev1.ObjectMeta :=
       {| metav1.Name := "test-kubeconfig";
          metav1.Namespace := "openshift-cluster-api";
          metav1.ResourceVersion := "7";
          metav1.Labels := {[ clusterv1.ClusterLabelName := "test" ]};
          metav1.Annotations := ∅;
          metav1.OwnerReferences :=
            [ {| metav1.OwnerAPIVersion := "cluster.x-k8s.io/v1beta1";
                 metav1.OwnerKind := "Cluster";
                 metav1.OwnerName := "test";
                 metav1.OwnerUID := "5b0d7a3e-1c2f-4e1b-9a55-0f6f1b2c3d4e";
                 metav1.Controller := Some true;
                 metav1.BlockOwnerDeletion := None |} ];
          metav1.Finalizers := [ "example.com/hold" ] |};
     corev1.Data := {[ "value" := "payload" ]};
     corev1.SecretType := clusterv1.ClusterSecretType |}.

Definition annotatedStore : Store :=
  {| Infrastructures := ∅;
     ServiceAccounts := ∅;
     SecretsOf := {[ ("openshift-cluster-api", "test-kubeconfig") := annotatedKubeconfigSecret ]};
     Revision := 7;
     Conditions := ∅;
     ReadFault := noFault;
     WriteFault := noFault |}.

Definition ownedStore : Store :=
  {| Infrastructures := ∅;
     ServiceAccounts := ∅;
     SecretsOf := {[ ("openshift-cluster-api", "test-kubeconfig") := ownedKubeconfigSecret ]};
     Revision := 7;
     Conditions := ∅;
     ReadFault := noFault;
     WriteFault := noFault |}.

(** The status record is lost to a concurrent writer: every write of it
    comes back as a conflict. *)
Definition statusConflict : Kind -> option error := fun k =>
  match k with
  | KindClusterOperator => Some (NewConflict "clusteroperators.config.openshift.io" "cluster-api")
  | _ => None
  end.

Definition withWriteFault (f : Kind -> option error) (w : Store) : Store :=
  {| Infrastructures := Infrastructures w;
     ServiceAccounts := ServiceAccounts w;
     SecretsOf := SecretsOf w;
     Revision := Revision w;
     Conditions := Conditions w;
     ReadFault := ReadFault w;
     WriteFault := f |}.

Definition withInfrastructures (m : gmap string configv1.Infrastructure) (w : Store) : Store :=
  {| Infrastructures := m;
     ServiceAccounts := ServiceAccounts w;
     SecretsOf := SecretsOf w;
     Revision := Revision w;
     Conditions := Conditions w;
     ReadFault := ReadFault w;
     WriteFault := WriteFault w |}.

(** Letter case, on bytes: two bytes are the same letter when they are
    equal or are an ASCII letter in its two cases; two strings differ only
    in letter case when they are so byte by byte. *)
Definition isLetterByte (n : N) : bool :=
  isUpperByte n || ((97 <=? n)%N && (n <=? 122)%N).

Definition sameLetter (a b : ascii) : bool :=
  bool_decide (a = b)
  || (isLetterByte (N_of_ascii a) && isLetterByte (N_of_ascii b)
      && bool_decide (lowerByte a = lowerByte b)).

Fixpoint caseVariant (s t : string) : bool :=
  match s, t with
  | EmptyString, EmptyString => true
  | String a s', String b t' => sameLetter a b && caseVariant s' t'
  | _, _ => false
  end.

Definition SL (a b : ascii) : Prop := sameLetter a b = true.

Section LetterCase.
Context `{Externals}.

Definition sameLower (x y : N) : Prop := unicode_ToLower x = unicode_ToLower y.

End LetterCase.

(** The infrastructure record with another platform type. *)
Definition withPlatformType (t : string) (infra : configv1.Infrastructure)
  : configv1.Infrastructure :=
  {| configv1.InfrastructureObjName := configv1.InfrastructureObjName infra;
     configv1.Status :=
       {| configv1.InfrastructureName :=
            configv1.InfrastructureName (configv1.Status infra);
          configv1.PlatformStatus_ := Some {| configv1.PlatformType := t |} |} |}.

(** A call does not look at the infrastructure records, nor touch them. *)
Definition frames {A : Type} (c : M A) : Prop :=
  forall m w, c (withInfrastructures m w) = (fst (c w), withInfrastructures m (snd (c w))).

(** An infrastructure record whose platform status is not there yet. *)
Definition sampleInfrastructureNoPlatform : configv1.Infrastructure :=
  {| configv1.InfrastructureObjName := "cluster";
     configv1.Status :=
       {| configv1.InfrastructureName := "test";
          configv1.PlatformStatus_ := None |} |}.

Definition notFoundCluster : error :=
  NewNotFound "infrastructures.config.openshift.io" "cluster".

Definition conflictClusterOperator : error :=
  NewConflict "clusteroperators.config.openshift.io" "cluster-api".

(* ===================================================================== *)
(** ** Vocabulary of the statements on the whole loop *)
(* ===================================================================== *)

(** The name prefix of the token secrets of the service account (line 99). *)
Definition tokenPrefix : string := serviceAccountName +:+ "-token".

(** Between two stores nothing changed but, at most, the secret under
    [key] (and the revision counter that goes with a write). *)
Definition touchesOnly (key : ObjectKey) (w w' : Store) : Prop :=
  Infrastructures w' = Infrastructures w
  /\ ServiceAccounts w' = ServiceAccounts w
  /\ Conditions w' = Conditions w
  /\ ReadFault w' = ReadFault w
  /\ WriteFault w' = WriteFault w
  /\ forall k, k <> key -> SecretsOf w' !! k = SecretsOf w !! k.

(** A call does not look at the status conditions, nor touch them. *)
Definition framesConditions {A : Type} (c : M A) : Prop :=
  forall cs w, c (setConditions cs w) = (fst (c w), setConditions cs (snd (c w))).

(** A filter admits some notification that carries the object (as the new
    snapshot, for an update). *)
Definition admittedBy (p : predicate.Funcs) (obj : Object) : Prop :=
  predicate.CreateFunc p (event.mkCreateEvent obj) = true
  \/ (exists old, predicate.UpdateFunc p (event.mkUpdateEvent old obj) = true)
  \/ predicate.GenericFunc p (event.mkGenericEvent obj) = true
  \/ predicate.DeleteFunc p (event.mkDeleteEvent obj) = true.

Section LoopVocabulary.
Context `{Externals}.

(** The key of the kubeconfig secret of a cluster (lines 142 and 143). *)
Definition kubeconfigKey (name : string) : ObjectKey :=
  (DefaultManagedNamespace, name +:+ "-kubeconfig").

(** Lines 123 to 128: the options handed to generateKubeconfig. *)
Definition optionsFor (r : KubeconfigReconciler) (tokenSecret : corev1.Secret)
  : kubeconfigOptions :=
  {| token := default "" (corev1.Data tokenSecret !! "token");
     caCert := default "" (corev1.Data tokenSecret !! "ca.crt");
     apiServerEnpoint := RestCfgHost r;
     clusterName := r_clusterName r |}.

(** The loop up to its status write: the reconciler as the loop leaves it,
    the error to report (none when there is nothing to report but
    availability) and the store the status write starts from. *)
Definition reconcileOutcome (r : KubeconfigReconciler) (w : Store)
  : KubeconfigReconciler * option error * Store :=
  match GetInfrastructure InfrastructureResourceName w with
  | (inl err, w) => (r, Some err, w)
  | (inr infra, w) =>
      match configv1.PlatformStatus_ (configv1.Status infra) with
      | None => (r, None, w)
      | Some platformStatus =>
          let r := setClusterName (configv1.InfrastructureName (configv1.Status infra)) r in
          match SupportedPlatforms r !! ToLower (configv1.PlatformType platformStatus) with
          | None => (r, None, w)
          | Some _ =>
              match reconcileKubeconfig r w with
              | (inl err, w) => (r, Some err, w)
              | (inr _, w) => (r, None, w)
              end
          end
      end
  end.

(** The status write that ends the loop, and what the loop returns. *)
Definition reportOutcome (o : KubeconfigReconciler * option error * Store)
  : (Result * option error) * KubeconfigReconciler * Store :=
  match o with
  | (r, Some err, w) =>
      finish r (Errorf "error syncing ClusterOperatorStatus: ") (Some err)
             (SetStatusDegraded err w)
  | (r, None, w) => finish r id None (SetStatusAvailable w)
  end.

(** The cluster name the infrastructure record gives does not make the
    kubeconfig secret a namesake of the token secrets of the service
    account. *)
Definition noTokenNameClash (w : Store) : Prop :=
  forall infra,
    Infrastructures w !! InfrastructureResourceName = Some infra ->
    HasPrefix (configv1.InfrastructureName (configv1.Status infra) +:+ "-kubeconfig")
              tokenPrefix = false.

(** One trigger, then [n] duplicates of it: what the last run returns, the
    reconciler and the store it leaves. *)
Fixpoint ReconcileTimes (n : nat) (r : KubeconfigReconciler) (w : Store)
  : (Result * option error) * KubeconfigReconciler * Store :=
  match n with
  | O => Reconcile r w
  | S n' => let '(_, r', w') := Reconcile r w in ReconcileTimes n' r' w'
  end.

End LoopVocabulary.

(** A cluster named like a token secret: the kubeconfig secret of the
    cluster "cluster-capi-operator-token" is the secret the service account
    lists as its token secret. *)
Definition clashInfrastructure : configv1.Infrastructure :=
  {| configv1.InfrastructureObjName := "cluster";
     configv1.Status :=
       {| configv1.InfrastructureName := "cluster-capi-operator-token";
          configv1.PlatformStatus_ := Some {| configv1.PlatformType := "AWS" |} |} |}.

Definition clashTokenSecret : corev1.Secret :=
  {| corev1.ObjectMeta :=
       {| metav1.Name := "cluster-capi-operator-token-kubeconfig";
          metav1.Namespace := "openshift-cluster-api";
          metav1.ResourceVersion := "1";
          metav1.Labels := ∅;
          metav1.Annotations := ∅;
          metav1.OwnerReferences := [];
          metav1.Finalizers := [] |};
     corev1.Data := {[ "token" := "dGVzdA=="; "ca.crt" := "dGVzdA==" ]};
     corev1.SecretType := "kubernetes.io/service-account-token" |}.

Definition clashStore : Store :=
  {| Infrastructures := {[ "cluster" := clashInfrastructure ]};
     ServiceAccounts :=
       {[ ("openshift-cluster-api", "cluster-capi-operator") :=
            {| corev1.Secrets :=
                 [ {| corev1.RefName := "cluster-capi-operator-token-kubeconfig" |} ] |} ]};
     SecretsOf :=
       {[ ("openshift-cluster-api", "cluster-capi-operator-token-kubeconfig")
            := clashTokenSecret ]};
     Revision := 1;
     Conditions := ∅;
     ReadFault := noFault;
     WriteFault := noFault |}.

(* ===================================================================== *)
(** * Properties *)
(* ===================================================================== *)

(** ** base64 and the derivation function *)

Example DecodeString_test : base64.DecodeString "dGVzdA==" = (Some "test", None).
Proof. vm_compute. reflexivity. Qed.

Example DecodeString_unpadded_quanta :
  base64.DecodeString "aGVsbG8h" = (Some "hello!", None).
Proof. vm_compute. reflexivity. Qed.

Example DecodeString_newlines :
  base64.DecodeString (String (ascii_of_nat 10) "dGVz" +:+ String (ascii_of_nat 13) "dA==")
  = (Some "test", None).
Proof. vm_compute. reflexivity. Qed.

Example DecodeString_corrupt :
  base64.DecodeString "a.b.c" = (None, Some base64.CorruptInputError).
Proof. vm_compute. reflexivity. Qed.

(** DecodeString returns a value or an error, never both, never neither. *)
Lemma DecodeString_cases (s : string) :
  (exists out, base64.DecodeString s = (Some out, None))
  \/ base64.DecodeString s = (None, Some base64.CorruptInputError).
Proof.
  unfold base64.DecodeString.
  destruct (base64.decodeQuanta _) as [out|]; [left; eauto | right; reflexivity].
Qed.

Section GenerateKubeconfigFacts.
Context `{Externals}.

Lemma fieldEmpty_false_of_allNonEmpty (o : kubeconfigOptions) (f : optionsField) :
  allNonEmpty o -> fieldEmpty f o = false.
Proof.
  intros (Ht & Hc & He & Hn).
  destruct f; simpl; apply bool_decide_eq_false; assumption.
Qed.

(** Past the four checks the outcome is that of the decoding. *)
Lemma generateKubeconfig_checked (o : kubeconfigOptions) :
  allNonEmpty o ->
  generateKubeconfig o =
    match base64.DecodeString (token o) with
    | (Some tok, None) =>
        (Some {| api.Clusters :=
                   {[ clusterName o :=
                        {| api.Server := apiServerEnpoint o;
                           api.CertificateAuthorityData := caCert o |} ]};
                 api.Contexts :=
                   {[ clusterName o :=
                        {| api.ContextCluster := clusterName o;
                           api.ContextAuthInfo := "cluster-capi-operator";
                           api.ContextNamespace := DefaultManagedNamespace |} ]};
                 api.AuthInfos :=
                   {[ "cluster-capi-operator" := {| api.Token := tok |} ]} |},
         None)
    | (_, Some err) => (None, Some err)
    | (_, None) => (None, Some base64.CorruptInputError)
    end.
Proof.
  intros Hne. unfold generateKubeconfig.
  rewrite !(fieldEmpty_false_of_allNonEmpty o _ Hne). reflexivity.
Qed.

(** The function returns a document or an error, never a nil pair: the
    dereference on line 135 of kubeconfig.go cannot panic. *)
Lemma generateKubeconfig_total (o : kubeconfigOptions) :
  (exists cfg, generateKubeconfig o = (Some cfg, None))
  \/ (exists err, generateKubeconfig o = (None, Some err)).
Proof.
  unfold generateKubeconfig.
  repeat (match goal with
          | |- context [if ?b then _ else _] => destruct b; [right; eauto |]
          end).
  destruct (DecodeString_cases (token o)) as [[out ->] | ->]; [left | right]; eauto.
Qed.

(** C1, as amended.  With the four inputs non-empty and a token that is
    well-formed base64 text, the call succeeds; the cluster entry under the
    cluster name has the endpoint as server and the CA bytes as certificate
    data, the context under the cluster name binds that cluster, and the
    token of the auth entry is what the token input decodes to. *)
Theorem generateKubeconfig_entries (o : kubeconfigOptions) (tok : string) :
  allNonEmpty o ->
  base64.DecodeString (token o) = (Some tok, None) ->
  exists cfg,
    generateKubeconfig o = (Some cfg, None)
    /\ api.Clusters cfg !! clusterName o
       = Some {| api.Server := apiServerEnpoint o;
                 api.CertificateAuthorityData := caCert o |}
    /\ (exists ctx, api.Contexts cfg !! clusterName o = Some ctx
                    /\ api.ContextCluster ctx = clusterName o)
    /\ api.AuthInfos cfg !! "cluster-capi-operator" = Some {| api.Token := tok |}.
Proof.
  intros Hne Hdec.
  rewrite (generateKubeconfig_checked o Hne), Hdec.
  eexists; split; [reflexivity |]. simpl.
  rewrite !lookup_singleton_eq. eauto.
Qed.

(** C2.  The scenario of the test: token and CA "dGVzdA==", endpoint
    "https://example.com", cluster name "test".  The call succeeds; the
    document has the cluster "test" with that server and CA, the context
    "test" on cluster "test" with auth "cluster-capi-operator" in the
    managed namespace, and the auth entry "cluster-capi-operator" with the
    token "test". *)
Theorem generateKubeconfig_scenario :
  exists cfg,
    generateKubeconfig
      {| token := "dGVzdA=="; caCert := "dGVzdA==";
         apiServerEnpoint := "https://example.com"; clusterName := "test" |}
    = (Some cfg, None)
    /\ api.Clusters cfg !! "test"
       = Some {| api.Server := "https://example.com";
                 api.CertificateAuthorityData := "dGVzdA==" |}
    /\ api.Contexts cfg !! "test"
       = Some {| api.ContextCluster := "test";
                 api.ContextAuthInfo := "cluster-capi-operator";
                 api.ContextNamespace := DefaultManagedNamespace |}
    /\ api.AuthInfos cfg !! "cluster-capi-operator" = Some {| api.Token := "test" |}.
Proof.
  eexists. split; [reflexivity |]. simpl.
  rewrite !lookup_singleton_eq. auto.
Qed.

(** C3.  When at least one of the four inputs is empty the call returns no
    document and the error of an empty field, and the field the error names
    is one that is empty. *)
Theorem generateKubeconfig_empty_input (o : kubeconfigOptions) :
  token o = "" \/ caCert o = "" \/ apiServerEnpoint o = "" \/ clusterName o = "" ->
  exists f,
    fieldEmpty f o = true
    /\ generateKubeconfig o = (None, Some (errEmpty f)).
Proof.
  intros Hempty. unfold generateKubeconfig.
  destruct (fieldEmpty FieldToken o) eqn:Ht; [exists FieldToken; auto |].
  destruct (fieldEmpty FieldCaCert o) eqn:Hc; [exists FieldCaCert; auto |].
  destruct (fieldEmpty FieldApiServerEnpoint o) eqn:He;
    [exists FieldApiServerEnpoint; auto |].
  destruct (fieldEmpty FieldClusterName o) eqn:Hn; [exists FieldClusterName; auto |].
  exfalso. simpl in Ht, Hc, He, Hn.
  apply bool_decide_eq_false in Ht, Hc, He, Hn. tauto.
Qed.

End GenerateKubeconfigFacts.

(** Each field on its own: emptying one input of the test's options. *)
Example generateKubeconfig_empty_each :
  let gen := @generateKubeconfig sampleExternals in
  gen (mkOptions "" "dGVzdA==" "https://example.com" "test")
    = (None, Some (errEmpty FieldToken))
  /\ gen (mkOptions "dGVzdA==" "" "https://example.com" "test")
    = (None, Some (errEmpty FieldCaCert))
  /\ gen (mkOptions "dGVzdA==" "dGVzdA==" "" "test")
    = (None, Some (errEmpty FieldApiServerEnpoint))
  /\ gen (mkOptions "dGVzdA==" "dGVzdA==" "https://example.com" "")
    = (None, Some (errEmpty FieldClusterName)).
Proof. repeat split. Qed.

(** C1 as the spec states it fails on the input of the test: the four
    inputs are non-empty and the call succeeds, but the token of the auth
    entry is "test", not the token input "dGVzdA==". *)
Lemma generateKubeconfig_token_not_echoed :
  let o := {| token := "dGVzdA=="; caCert := "dGVzdA==";
              apiServerEnpoint := "https://example.com"; clusterName := "test" |} in
  allNonEmpty o
  /\ ~ (exists cfg,
          @generateKubeconfig sampleExternals o = (Some cfg, None)
          /\ api.AuthInfos cfg !! "cluster-capi-operator"
             = Some {| api.Token := token o |}).
Proof.
  split; [repeat split; discriminate |].
  intros (cfg & Hgen & Htok).
  vm_compute in Hgen. injection Hgen as <-.
  vm_compute in Htok. discriminate Htok.
Qed.

Lemma generateKubeconfig_entries_witness :
  exists cfg,
    @generateKubeconfig sampleExternals
      (mkOptions "aGVsbG8h" "Y2E=" "https://api.example.com:6443" "prod")
    = (Some cfg, None)
    /\ api.AuthInfos cfg !! "cluster-capi-operator" = Some {| api.Token := "hello!" |}.
Proof.
  destruct (@generateKubeconfig_entries sampleExternals
              (mkOptions "aGVsbG8h" "Y2E=" "https://api.example.com:6443" "prod")
              "hello!") as (cfg & Hgen & _ & _ & Htok).
  - repeat split; discriminate.
  - vm_compute. reflexivity.
  - exists cfg. split; assumption.
Defined.

Lemma generateKubeconfig_empty_input_witness :
  exists f,
    fieldEmpty f (mkOptions "dGVzdA==" "" "https://example.com" "test") = true
    /\ @generateKubeconfig sampleExternals
         (mkOptions "dGVzdA==" "" "https://example.com" "test")
       = (None, Some (errEmpty f)).
Proof.
  apply (@generateKubeconfig_empty_input sampleExternals
           (mkOptions "dGVzdA==" "" "https://example.com" "test")).
  right; left; reflexivity.
Defined.

(** ** The event filters *)

Section WatchPredicatesFacts.
Context `{Externals}.

Lemma isClusterOperatorCluster_spec (obj : Object) :
  isClusterOperatorCluster obj = true
  <-> exists co, obj = ObjClusterOperator co
                 /\ configv1.ClusterOperatorObjName co = clusterOperatorName.
Proof.
  split.
  - destruct obj; simpl; try discriminate.
    intros Hn%bool_decide_eq_true. eauto.
  - intros (co & -> & Hn). simpl. apply bool_decide_eq_true. exact Hn.
Qed.

Lemma isInfrastructureCluster_spec (obj : Object) :
  isInfrastructureCluster obj = true
  <-> exists infra, obj = ObjInfrastructure infra
                    /\ configv1.InfrastructureObjName infra = infrastructureResourceName.
Proof.
  split.
  - destruct obj; simpl; try discriminate.
    intros Hn%bool_decide_eq_true. eauto.
  - intros (infra & -> & Hn). simpl. apply bool_decide_eq_true. exact Hn.
Qed.

Lemma isFeatureGateCluster_spec (obj : Object) :
  isFeatureGateCluster obj = true
  <-> exists fg, obj = ObjFeatureGate fg
                 /\ configv1.FeatureGateObjName fg = externalFeatureGateName.
Proof.
  split.
  - destruct obj; simpl; try discriminate.
    intros Hn%bool_decide_eq_true. eauto.
  - intros (fg & -> & Hn). simpl. apply bool_decide_eq_true. exact Hn.
Qed.

(** C8.  Every filter is a total boolean function of the notification (it
    has no error result), and it admits a create, update, delete or generic
    notification exactly when the object (the new snapshot, for an update)
    is of the filtered kind and bears the singleton name; an object of
    another kind, a nil object or another name is rejected. *)
Theorem predicates_admit_iff_singleton :
  decidesBy clusterOperatorPredicates
    (fun obj => exists co, obj = ObjClusterOperator co
                           /\ configv1.ClusterOperatorObjName co = clusterOperatorName)
  /\ decidesBy infrastructurePredicates
       (fun obj => exists infra, obj = ObjInfrastructure infra
                     /\ configv1.InfrastructureObjName infra = infrastructureResourceName)
  /\ decidesBy featureGatePredicates
       (fun obj => exists fg, obj = ObjFeatureGate fg
                     /\ configv1.FeatureGateObjName fg = externalFeatureGateName).
Proof.
  unfold decidesBy; simpl.
  repeat split;
    first [ apply isClusterOperatorCluster_spec
          | apply isInfrastructureCluster_spec
          | apply isFeatureGateCluster_spec ].
Qed.

(** C9.  Two update notifications with the same new snapshot get the same
    decision from each of the three filters, whatever their old snapshots
    are. *)
Theorem update_decision_ignores_old (e1 e2 : event.UpdateEvent) :
  event.ObjectNew e1 = event.ObjectNew e2 ->
  predicate.UpdateFunc clusterOperatorPredicates e1
  = predicate.UpdateFunc clusterOperatorPredicates e2
  /\ predicate.UpdateFunc infrastructurePredicates e1
     = predicate.UpdateFunc infrastructurePredicates e2
  /\ predicate.UpdateFunc featureGatePredicates e1
     = predicate.UpdateFunc featureGatePredicates e2.
Proof.
  intros Hnew. simpl. rewrite Hnew. auto.
Qed.

End WatchPredicatesFacts.

Example predicates_on_samples :
  let p := @infrastructurePredicates sampleExternals in
  predicate.CreateFunc p (event.mkCreateEvent (ObjInfrastructure (sampleInfrastructure "AWS")))
    = true
  /\ predicate.DeleteFunc p (event.mkDeleteEvent (ObjOther "Infrastructure" "cluster")) = false
  /\ predicate.GenericFunc p (event.mkGenericEvent ObjNil) = false
  /\ predicate.CreateFunc (@clusterOperatorPredicates sampleExternals)
       (event.mkCreateEvent (ObjInfrastructure (sampleInfrastructure "AWS"))) = false
  /\ predicate.UpdateFunc (@clusterOperatorPredicates sampleExternals)
       (event.mkUpdateEvent (ObjClusterOperator (configv1.mkClusterOperator "cluster-api"))
                            (ObjClusterOperator (configv1.mkClusterOperator "etcd"))) = false.
Proof. repeat split. Qed.

Lemma update_decision_ignores_old_witness :
  let e1 := event.mkUpdateEvent
              (ObjClusterOperator (configv1.mkClusterOperator "etcd"))
              (ObjClusterOperator (configv1.mkClusterOperator "cluster-api")) in
  let e2 := event.mkUpdateEvent ObjNil
              (ObjClusterOperator (configv1.mkClusterOperator "cluster-api")) in
  predicate.UpdateFunc (@clusterOperatorPredicates sampleExternals) e1
  = predicate.UpdateFunc (@clusterOperatorPredicates sampleExternals) e2.
Proof.
  intros e1 e2.
  exact (proj1 (@update_decision_ignores_old sampleExternals e1 e2 eq_refl)).
Defined.

(** ** Merge patches *)

Lemma scalarApply_scalarDiff (before after : string) :
  scalarApply (scalarDiff before after) before = after.
Proof.
  unfold scalarApply, scalarDiff. destruct (decide (before = after)); simpl; auto.
Qed.

Lemma mapApply_mapDiff (before after : gmap string string) :
  mapApply (mapDiff before after) before = after.
Proof.
  apply map_eq. intros k. unfold mapApply, mapDiff.
  rewrite !lookup_merge.
  destruct (before !! k) as [x|] eqn:Hb, (after !! k) as [y|] eqn:Ha; simpl; auto.
  destruct (decide (x = y)); simpl; congruence.
Qed.

Lemma listApply_listDiff {A : Type} `{EqDecision A} (before after : list A) :
  listApply (listDiff before after) before = after.
Proof.
  unfold listApply, listDiff. destruct (decide (before = after)); simpl; auto.
Qed.

(** The patch between two snapshots, applied to the first, gives the
    second, under the name and namespace of the first. *)
Lemma applyPatch_MergeFrom (before after : corev1.Secret) :
  applyPatch (MergeFrom before after) before =
  {| corev1.ObjectMeta :=
       {| metav1.Name := metav1.Name (corev1.ObjectMeta before);
          metav1.Namespace := metav1.Namespace (corev1.ObjectMeta before);
          metav1.ResourceVersion := metav1.ResourceVersion (corev1.ObjectMeta after);
          metav1.Labels := metav1.Labels (corev1.ObjectMeta after);
          metav1.Annotations := metav1.Annotations (corev1.ObjectMeta after);
          metav1.OwnerReferences := metav1.OwnerReferences (corev1.ObjectMeta after);
          metav1.Finalizers := metav1.Finalizers (corev1.ObjectMeta after) |};
     corev1.Data := corev1.Data after;
     corev1.SecretType := corev1.SecretType after |}.
Proof.
  unfold applyPatch, MergeFrom; simpl.
  rewrite !scalarApply_scalarDiff, !mapApply_mapDiff, !listApply_listDiff. reflexivity.
Qed.

Lemma withResourceVersion_idem (rv rv' : string) (s : corev1.Secret) :
  withResourceVersion rv (withResourceVersion rv' s) = withResourceVersion rv s.
Proof. reflexivity. Qed.

Lemma withResourceVersion_same (s : corev1.Secret) :
  withResourceVersion (metav1.ResourceVersion (corev1.ObjectMeta s)) s = s.
Proof. destruct s as [[? ? ? ? ? ? ?] ? ?]. reflexivity. Qed.

(** ** The upsert of the kubeconfig secret *)

Section UpsertFacts.
Context `{Externals}.

Lemma GetSecret_store (key : ObjectKey) (w : Store) : snd (GetSecret key w) = w.
Proof. unfold GetSecret. destruct (ReadFault w KindSecret); [reflexivity|]. destruct (SecretsOf w !! key); reflexivity. Qed.

Lemma mutate_mutateFn (d obj : corev1.Secret) :
  mutate (mutateFn d) (ObjectKeyFromObject d) obj = inr d.
Proof.
  unfold mutate, mutateFn. destruct d as [m dt ty]; simpl.
  rewrite bool_decide_eq_true_2; reflexivity.
Qed.

Lemma upsert_unfold (d : corev1.Secret) (w : Store) :
  upsertKubeconfigSecret d w =
  match GetSecret (ObjectKeyFromObject d) w with
  | (inl err, _) =>
      if IsNotFound err then
        match Create d w with
        | (inl err', w2) => (inl err', w2)
        | (inr _, w2) => (inr OperationResultCreated, w2)
        end
      else (inl err, w)
  | (inr before, _) =>
      if decide (before = d) then (inr OperationResultNone, w)
      else
        match Patch d (MergeFrom before d) w with
        | (inl err', w2) => (inl err', w2)
        | (inr _, w2) => (inr OperationResultUpdated, w2)
        end
  end.
Proof.
  unfold upsertKubeconfigSecret, CreateOrPatch.
  pose proof (GetSecret_store (ObjectKeyFromObject d) w) as Hs.
  destruct (GetSecret (ObjectKeyFromObject d) w) as [[err|before] w1]; simpl in Hs; subst w1;
    rewrite mutate_mutateFn; reflexivity.
Qed.
(** The patch to the desired record against the stored one: the patched
    record names no revision, so the store checks none; it is a write only
    when it changes the stored record. *)
Lemma Patch_desired (d cur : corev1.Secret) (w : Store) :
  rvOf d = "" ->
  WriteFault w KindSecret = None ->
  SecretsOf w !! ObjectKeyFromObject d = Some cur ->
  let new := applyPatch (MergeFrom cur d) cur in
  Patch d (MergeFrom cur d) w =
    if decide (withResourceVersion (rvOf cur) new = cur) then (inr cur, w)
    else
      let stored := withResourceVersion (pretty (nextRevision w)) new in
      (inr stored,
       setSecrets (<[ObjectKeyFromObject d := stored]> (SecretsOf w)) (nextRevision w) w).
Proof.
  intros Hrv Hwf Hcur new. unfold Patch. rewrite Hwf, Hcur.
  fold new.
  assert (Hnew : metav1.ResourceVersion (corev1.ObjectMeta new) = "").
  { unfold new. rewrite applyPatch_MergeFrom. simpl. exact Hrv. }
  rewrite Hnew. rewrite bool_decide_eq_false_2 by (intros [Hne _]; congruence).
  reflexivity.
Qed.

Lemma Create_desired (d : corev1.Secret) (w : Store) :
  rvOf d = "" ->
  Create d w =
    match WriteFault w KindSecret with
    | Some err => (inl err, w)
    | None =>
        match SecretsOf w !! ObjectKeyFromObject d with
        | Some _ => (inl (NewAlreadyExists "secrets" (ObjectKeyFromObject d).2), w)
        | None =>
            let stored := withResourceVersion (pretty (nextRevision w)) d in
            (inr stored,
             setSecrets (<[ObjectKeyFromObject d := stored]> (SecretsOf w)) (nextRevision w) w)
        end
    end.
Proof.
  intros Hrv. unfold Create. unfold rvOf in Hrv. rewrite Hrv.
  rewrite bool_decide_eq_false_2 by tauto. reflexivity.
Qed.

Lemma GetSecret_eq (key : ObjectKey) (w : Store) :
  GetSecret key w =
    match ReadFault w KindSecret with
    | Some err => (inl err, w)
    | None =>
        match SecretsOf w !! key with
        | Some s => (inr s, w)
        | None => (inl (NewNotFound "secrets" key.2), w)
        end
    end.
Proof. reflexivity. Qed.

Lemma IsNotFound_NewNotFound (resource name : string) :
  IsNotFound (NewNotFound resource name) = true.
Proof. reflexivity. Qed.

Lemma Patch_fault (obj : corev1.Secret) (p : SecretPatch) (w : Store) (err : error) :
  WriteFault w KindSecret = Some err -> Patch obj p w = (inl err, w).
Proof. intros Hwf. unfold Patch. rewrite Hwf. reflexivity. Qed.

(** An upsert of a record that names no revision, repeated, changes
    nothing more: also when the store refuses reads or writes. *)
Lemma upsert_idempotent_store (d : corev1.Secret) (w : Store) :
  rvOf d = "" ->
  snd (upsertKubeconfigSecret d (snd (upsertKubeconfigSecret d w)))
  = snd (upsertKubeconfigSecret d w).
Proof.
  intros Hrv.
  assert (Hstep : forall w0 stored,
            ReadFault w0 KindSecret = None ->
            WriteFault w0 KindSecret = None ->
            SecretsOf w0 !! ObjectKeyFromObject d = Some stored ->
            withResourceVersion (rvOf stored) (applyPatch (MergeFrom stored d) stored) = stored ->
            snd (upsertKubeconfigSecret d w0) = w0).
  { intros w0 stored Hrf Hwf Hst Hsame.
    rewrite upsert_unfold, GetSecret_eq, Hrf, Hst.
    destruct (decide (stored = d)); [reflexivity |].
    rewrite (Patch_desired d stored w0 Hrv Hwf Hst).
    rewrite decide_True by exact Hsame. reflexivity. }
  rewrite (upsert_unfold d w), GetSecret_eq, (Create_desired d w Hrv).
  destruct (ReadFault w KindSecret) as [rerr|] eqn:Hrf,
           (WriteFault w KindSecret) as [werr|] eqn:Hwf,
           (SecretsOf w !! ObjectKeyFromObject d) as [cur|] eqn:Hcur;
    try rewrite IsNotFound_NewNotFound;
    try destruct (IsNotFound rerr) eqn:Hnf;
    try destruct (decide (cur = d)) as [Heq|Hne];
    try rewrite (Patch_fault _ _ _ _ Hwf);
    cbn [fst snd];
    try (rewrite (upsert_unfold d w), GetSecret_eq, (Create_desired d w Hrv),
           Hrf, ?Hnf, ?Hwf, ?Hcur, ?IsNotFound_NewNotFound;
         try (rewrite decide_True by exact Heq);
         try (rewrite decide_False by exact Hne);
         try rewrite (Patch_fault _ _ _ _ Hwf);
         reflexivity).
  - (* reads answer not-found, the record is created behind them *)
    cbv zeta. cbn [snd].
    rewrite upsert_unfold, GetSecret_eq, (Create_desired _ _ Hrv).
    cbn [ReadFault WriteFault SecretsOf setSecrets]. rewrite Hrf, Hnf, Hwf, lookup_insert_eq.
    reflexivity.
  - (* the record is there and differs *)
    rewrite (Patch_desired d cur w Hrv Hwf Hcur).
    destruct (decide (withResourceVersion (rvOf cur) (applyPatch (MergeFrom cur d) cur) = cur))
      as [Hsame|Hdiff]; cbv zeta; cbn [snd].
    + exact (Hstep w cur Hrf Hwf Hcur Hsame).
    + eapply Hstep; cbn [ReadFault WriteFault SecretsOf setSecrets]; eauto.
      * apply lookup_insert_eq.
      * rewrite !applyPatch_MergeFrom. reflexivity.
  - (* the record is not there: it is created *)
    cbv zeta. cbn [snd].
    eapply Hstep; cbn [ReadFault WriteFault SecretsOf setSecrets]; eauto.
    + apply lookup_insert_eq.
    + rewrite !applyPatch_MergeFrom. destruct d as [[? ? ? ? ? ? ?] ? ?]; reflexivity.
Qed.

(** The store takes a patch to the desired record for a change exactly when
    the stored record differs from it in a field a client may set. *)
Lemma sameClientFields_iff (cur d : corev1.Secret) :
  withResourceVersion (rvOf cur) (applyPatch (MergeFrom cur d) cur) = cur
  <-> sameClientFields cur d.
Proof.
  rewrite applyPatch_MergeFrom.
  unfold sameClientFields, sameContent, withResourceVersion, rvOf.
  destruct cur as [[n ns rv l a o f] dt ty], d as [[n' ns' rv' l' a' o' f'] dt' ty']; simpl.
  split.
  - intros Heq. injection Heq as -> -> -> -> -> ->. auto.
  - intros ((-> & -> & -> & ->) & -> & ->). reflexivity.
Qed.

Lemma sameContent_of_unchanged (cur d : corev1.Secret) :
  withResourceVersion (rvOf cur) (applyPatch (MergeFrom cur d) cur) = cur ->
  sameContent cur d.
Proof. intros Hsame. apply sameClientFields_iff in Hsame. apply Hsame. Qed.

(** C6, as amended.  When the secondary secret record is already in the
    store (and the store serves the calls), the upsert succeeds and leaves
    under the same key a record whose labels, annotations, data and type are
    those of the desired record and which has no owner reference and no
    finalizer: the whole client-side metadata is replaced by that of the
    desired record, and labels, annotations, owner references and
    finalizers that the desired record does not carry are gone.  Name and
    namespace are kept and every other secret is untouched.  The revision
    is not kept: whenever the stored record differed from the desired one
    in any of these fields, the store gives the record its next revision. *)
Theorem upsert_existing (name out : string) (w : Store) (cur : corev1.Secret) :
  let d := kubeconfigSecretFor name out in
  let key : ObjectKey := (DefaultManagedNamespace, name +:+ "-kubeconfig") in
  ReadFault w KindSecret = None ->
  WriteFault w KindSecret = None ->
  SecretsOf w !! key = Some cur ->
  exists op stored w',
    upsertKubeconfigSecret d w = (inr op, w')
    /\ SecretsOf w' !! key = Some stored
    /\ sameContent stored d
    /\ metav1.OwnerReferences (corev1.ObjectMeta stored) = []
    /\ metav1.Finalizers (corev1.ObjectMeta stored) = []
    /\ metav1.Name (corev1.ObjectMeta stored) = metav1.Name (corev1.ObjectMeta cur)
    /\ metav1.Namespace (corev1.ObjectMeta stored) = metav1.Namespace (corev1.ObjectMeta cur)
    /\ (forall k, k <> key -> SecretsOf w' !! k = SecretsOf w !! k)
    /\ (~ sameClientFields cur d ->
        rvOf stored = pretty (nextRevision w) /\ Revision w' = nextRevision w).
Proof.
  intros d key Hrf Hwf Hcur.
  assert (Hrv : rvOf d = "") by reflexivity.
  change key with (ObjectKeyFromObject d) in *.
  rewrite upsert_unfold, GetSecret_eq, Hrf, Hcur.
  destruct (decide (cur = d)) as [->|Hne].
  { exists OperationResultNone, d, w.
    repeat (split; [solve [auto | repeat split] |]).
    intros Hn. exfalso. apply Hn. repeat split. }
  rewrite (Patch_desired d cur w Hrv Hwf Hcur).
  destruct (decide (withResourceVersion (rvOf cur) (applyPatch (MergeFrom cur d) cur) = cur))
    as [Hsame|Hdiff]; cbv zeta.
  - apply sameClientFields_iff in Hsame.
    destruct Hsame as (Hcontent & Howners & Hfinalizers).
    exists OperationResultUpdated, cur, w.
    split; [reflexivity |]. split; [exact Hcur |]. split; [exact Hcontent |].
    split; [rewrite Howners; reflexivity |].
    split; [rewrite Hfinalizers; reflexivity |].
    split; [reflexivity |]. split; [reflexivity |]. split; [reflexivity |].
    intros Hn. exfalso. apply Hn. split; [exact Hcontent | split; assumption].
  - eexists OperationResultUpdated, _, _. split; [reflexivity |].
    cbn [SecretsOf setSecrets Revision]. rewrite lookup_insert_eq.
    split; [reflexivity |].
    rewrite applyPatch_MergeFrom.
    split; [repeat split |]. split; [reflexivity |]. split; [reflexivity |].
    split; [reflexivity |]. split; [reflexivity |].
    split; [intros k Hk; apply lookup_insert_ne; congruence |].
    intros _. split; reflexivity.
Qed.

(** C7.  Two upserts in a row with the same desired record: the store after
    the second is the store after the first; when the first succeeds the
    store holds a record under the key (the managed namespace, the cluster
    name followed by "-kubeconfig") with the desired content, and a map has
    one record under a key; when the store serves reads and writes of
    secrets both invocations succeed. *)
Theorem upsert_twice (name out : string) (w : Store) :
  let d := kubeconfigSecretFor name out in
  let key : ObjectKey := (DefaultManagedNamespace, name +:+ "-kubeconfig") in
  let once := upsertKubeconfigSecret d w in
  let twice := upsertKubeconfigSecret d (snd once) in
  snd twice = snd once
  /\ (forall op, fst once = inr op ->
        exists stored, SecretsOf (snd once) !! key = Some stored /\ sameContent stored d)
  /\ (ReadFault w KindSecret = None -> WriteFault w KindSecret = None ->
        exists op1 op2, fst once = inr op1 /\ fst twice = inr op2).
Proof.
  intros d key once twice.
  assert (Hrv : rvOf d = "") by reflexivity.
  split; [apply upsert_idempotent_store; exact Hrv |].
  assert (Hok : forall w0 : Store,
            ReadFault w0 KindSecret = None -> WriteFault w0 KindSecret = None ->
            exists op, fst (upsertKubeconfigSecret d w0) = inr op
                       /\ ReadFault (snd (upsertKubeconfigSecret d w0)) KindSecret = None
                       /\ WriteFault (snd (upsertKubeconfigSecret d w0)) KindSecret = None).
  { intros w0 Hrf Hwf.
    rewrite upsert_unfold, GetSecret_eq, Hrf.
    destruct (SecretsOf w0 !! ObjectKeyFromObject d) as [cur|] eqn:Hcur.
    - destruct (decide (cur = d)); [exists OperationResultNone; auto |].
      rewrite (Patch_desired d cur w0 Hrv Hwf Hcur).
      destruct (decide _); cbv zeta; exists OperationResultUpdated; auto.
    - rewrite IsNotFound_NewNotFound, (Create_desired d w0 Hrv), Hwf, Hcur. cbv zeta.
      exists OperationResultCreated. auto. }
  split.
  - intros op. unfold once.
    rewrite upsert_unfold, GetSecret_eq, (Create_desired d w Hrv).
    change (ObjectKeyFromObject d) with key.
    destruct (ReadFault w KindSecret) as [rerr|] eqn:Hrf.
    + destruct (IsNotFound rerr); [| discriminate].
      destruct (WriteFault w KindSecret) as [werr|] eqn:Hwf; [discriminate |].
      destruct (SecretsOf w !! key) as [cur|] eqn:Hcur; [discriminate |].
      cbv zeta. cbn [fst snd SecretsOf setSecrets]. intros _.
      eexists. split; [apply lookup_insert_eq | repeat split].
    + destruct (SecretsOf w !! key) as [cur|] eqn:Hcur.
      * destruct (decide (cur = d)) as [->|Hne].
        { cbn [fst snd]. intros _. exists d. split; [exact Hcur | repeat split]. }
        destruct (WriteFault w KindSecret) as [werr|] eqn:Hwf.
        { rewrite (Patch_fault _ _ _ _ Hwf). discriminate. }
        change key with (ObjectKeyFromObject d) in Hcur.
        rewrite (Patch_desired d cur w Hrv Hwf Hcur).
        destruct (decide _) as [Hsame|Hdiff]; cbv zeta; cbn [fst snd]; intros _.
        -- exists cur. split; [exact Hcur | apply sameContent_of_unchanged; exact Hsame].
        -- eexists. cbn [SecretsOf setSecrets]. split; [apply lookup_insert_eq |].
           rewrite applyPatch_MergeFrom. repeat split.
      * rewrite IsNotFound_NewNotFound.
        destruct (WriteFault w KindSecret) as [werr|] eqn:Hwf; [discriminate |].
        cbv zeta. cbn [fst snd SecretsOf setSecrets]. intros _.
        eexists. split; [apply lookup_insert_eq | repeat split].
  - intros Hrf Hwf.
    destruct (Hok w Hrf Hwf) as (op1 & H1 & Hrf1 & Hwf1).
    destruct (Hok (snd once) Hrf1 Hwf1) as (op2 & H2 & _).
    exists op1, op2. split; assumption.
Qed.

End UpsertFacts.

(** ** Letter case and strings.ToLower *)

Lemma N_of_ascii_lt (c : ascii) : (N_of_ascii c < 256)%N.
Proof. apply N_ascii_bounded. Qed.

Lemma N_of_lowerByte (c : ascii) :
  N_of_ascii (lowerByte c)
  = if isUpperByte (N_of_ascii c) then (N_of_ascii c + 32)%N else N_of_ascii c.
Proof.
  unfold lowerByte. destruct (isUpperByte (N_of_ascii c)) eqn:Hu; [| reflexivity].
  apply N_ascii_embedding. unfold isUpperByte in Hu.
  apply andb_true_iff in Hu as [_ Hhi%N.leb_le]. lia.
Qed.

Lemma isLetterByte_lt (n : N) : isLetterByte n = true -> (n < 128)%N.
Proof.
  unfold isLetterByte, isUpperByte. intros Hl.
  apply orb_true_iff in Hl as [Hl|Hl]; apply andb_true_iff in Hl as [_ Hhi%N.leb_le]; lia.
Qed.

Lemma sameLetter_cases (a b : ascii) :
  sameLetter a b = true ->
  a = b \/ ((N_of_ascii a < 128)%N /\ (N_of_ascii b < 128)%N /\ lowerByte a = lowerByte b).
Proof.
  unfold sameLetter. intros Hs. apply orb_true_iff in Hs as [Hs|Hs].
  - left. apply bool_decide_eq_true in Hs. exact Hs.
  - right. apply andb_true_iff in Hs as [Hl Hlow]. apply andb_true_iff in Hl as [Ha Hb].
    apply bool_decide_eq_true in Hlow. auto using isLetterByte_lt.
Qed.

Lemma sameLetter_lower (a b : ascii) : sameLetter a b = true -> lowerByte a = lowerByte b.
Proof. intros [->|(_ & _ & Hl)]%sameLetter_cases; auto. Qed.

Lemma sameLetter_ascii (a b : ascii) :
  sameLetter a b = true ->
  (N_of_ascii a <? utf8.RuneSelf)%N = (N_of_ascii b <? utf8.RuneSelf)%N.
Proof.
  intros [->|(Ha & Hb & _)]%sameLetter_cases; [reflexivity |].
  unfold utf8.RuneSelf. apply N.ltb_lt in Ha, Hb. congruence.
Qed.

Lemma sameLetter_high (a b : ascii) :
  sameLetter a b = true -> (128 <= N_of_ascii a)%N \/ (128 <= N_of_ascii b)%N -> a = b.
Proof. intros [->|(Ha & Hb & _)]%sameLetter_cases; [reflexivity | lia]. Qed.

Section ToLowerFacts.
Context `{Externals}.

Lemma sameLetter_rune (a b : ascii) :
  sameLetter a b = true ->
  unicode_ToLower (N_of_ascii a) = unicode_ToLower (N_of_ascii b).
Proof.
  intros [->|(Ha & Hb & Hl)]%sameLetter_cases; [reflexivity |].
  unfold unicode_ToLower.
  rewrite !(proj2 (N.leb_le _ 127)) by lia.
  rewrite <- !N_of_lowerByte. congruence.
Qed.

Lemma first_AS (n : N) : utf8.first n = utf8.AS <-> (n < 128)%N.
Proof.
  unfold utf8.first.
  repeat (match goal with |- context [if ?b then _ else _] => destruct b eqn:? end);
    split; intros Hx; try discriminate; try reflexivity;
    repeat match goal with
           | Hb : (_ <? _)%N = true |- _ => apply N.ltb_lt in Hb
           | Hb : (_ <? _)%N = false |- _ => apply N.ltb_ge in Hb
           end; try lia.
Qed.

Lemma first_bounds (n lo hi : N) :
  utf8.first n = utf8.S2 lo hi \/ utf8.first n = utf8.S3 lo hi \/ utf8.first n = utf8.S4 lo hi ->
  (128 <= lo)%N.
Proof.
  unfold utf8.first.
  repeat (match goal with |- context [if ?b then _ else _] => destruct b end);
    intros [Hx|[Hx|Hx]]; try discriminate; injection Hx as <- <-; lia.
Qed.

Lemma inRange_high (lo hi b : N) :
  (128 <= lo)%N -> utf8.inRange lo hi b = true -> (128 <= b)%N.
Proof.
  unfold utf8.inRange. intros Hlo Hr. apply andb_true_iff in Hr as [Hl%N.leb_le _]. lia.
Qed.

Lemma inRange_SL (lo hi : N) (a b : ascii) :
  (128 <= lo)%N -> SL a b ->
  utf8.inRange lo hi (N_of_ascii a) = utf8.inRange lo hi (N_of_ascii b)
  /\ (utf8.inRange lo hi (N_of_ascii a) = true -> a = b).
Proof.
  intros Hlo [->|(Ha & Hb & _)]%sameLetter_cases; [auto |].
  assert (Hfa : utf8.inRange lo hi (N_of_ascii a) = false).
  { destruct (utf8.inRange lo hi (N_of_ascii a)) eqn:Hr; [| reflexivity].
    apply inRange_high in Hr; [lia | exact Hlo]. }
  assert (Hfb : utf8.inRange lo hi (N_of_ascii b) = false).
  { destruct (utf8.inRange lo hi (N_of_ascii b)) eqn:Hr; [| reflexivity].
    apply inRange_high in Hr; [lia | exact Hlo]. }
  rewrite Hfa, Hfb. split; [reflexivity | discriminate].
Qed.

Lemma runes_caseVariant (n : nat) :
  forall s t : list ascii,
    length s <= n -> Forall2 SL s t -> Forall2 sameLower (utf8.runes s) (utf8.runes t).
Proof.
  induction n as [|n IH]; intros s t Hlen Hst.
  - destruct Hst; [constructor | simpl in Hlen; lia].
  - destruct Hst as [|c0 d0 t0 u0 H0 Htl]; [constructor |].
    simpl in Hlen.
    assert (IH0 : Forall2 sameLower (utf8.runes t0) (utf8.runes u0))
      by (apply IH; [lia | exact Htl]).
    assert (Herr : Forall2 sameLower (utf8.RuneError :: utf8.runes t0)
                                     (utf8.RuneError :: utf8.runes u0))
      by (constructor; [reflexivity | exact IH0]).
    destruct (utf8.first (N_of_ascii c0)) as [| |lo hi|lo hi|lo hi] eqn:Hf.
    + (* ASCII on the left: ASCII on the right *)
      pose proof (proj1 (first_AS _) Hf) as Hlt.
      assert (Hfd : utf8.first (N_of_ascii d0) = utf8.AS).
      { apply first_AS. pose proof (sameLetter_ascii _ _ H0) as Ha.
        unfold utf8.RuneSelf in Ha. rewrite (proj2 (N.ltb_lt _ _) Hlt) in Ha.
        symmetry in Ha. apply N.ltb_lt in Ha. exact Ha. }
      cbn [utf8.runes]. rewrite Hf, Hfd.
      constructor; [apply sameLetter_rune; exact H0 | exact IH0].
    + assert (c0 = d0) as <-.
      { apply sameLetter_high; [exact H0 |]. left.
        destruct (N.lt_ge_cases (N_of_ascii c0) 128) as [Hlt|Hge]; [| exact Hge].
        apply first_AS in Hlt. congruence. }
      cbn [utf8.runes]. rewrite Hf. exact Herr.
    + assert (c0 = d0) as <-.
      { apply sameLetter_high; [exact H0 |]. left.
        destruct (N.lt_ge_cases (N_of_ascii c0) 128) as [Hlt|Hge]; [| exact Hge].
        apply first_AS in Hlt. congruence. }
      assert (Hlo : (128 <= lo)%N) by (eapply first_bounds; eauto).
      cbn [utf8.runes]. rewrite Hf.
      destruct Htl as [|c1 d1 t1 u1 H1 Htl1]; [exact Herr |].
      destruct (inRange_SL lo hi c1 d1 Hlo H1) as [Hr Heq]. rewrite <- Hr.
      destruct (utf8.inRange lo hi (N_of_ascii c1)) eqn:Hr1; [| exact Herr].
      rewrite <- (Heq eq_refl).
      constructor; [reflexivity |]. apply IH; [simpl in Hlen; lia | exact Htl1].
    + assert (c0 = d0) as <-.
      { apply sameLetter_high; [exact H0 |]. left.
        destruct (N.lt_ge_cases (N_of_ascii c0) 128) as [Hlt|Hge]; [| exact Hge].
        apply first_AS in Hlt. congruence. }
      assert (Hlo : (128 <= lo)%N) by (eapply first_bounds; eauto).
      cbn [utf8.runes]. rewrite Hf.
      destruct Htl as [|c1 d1 t1 u1 H1 Htl1]; [exact Herr |].
      destruct Htl1 as [|c2 d2 t2 u2 H2 Htl2]; [exact Herr |].
      destruct (inRange_SL lo hi c1 d1 Hlo H1) as [Hr1 Heq1]. rewrite <- Hr1.
      destruct (inRange_SL 128 191 c2 d2 (N.le_refl _) H2) as [Hr2 Heq2]. rewrite <- Hr2.
      destruct (utf8.inRange lo hi (N_of_ascii c1)) eqn:Hi1; [| exact Herr].
      destruct (utf8.inRange 128 191 (N_of_ascii c2)) eqn:Hi2; [| exact Herr].
      rewrite <- (Heq1 eq_refl), <- (Heq2 eq_refl). cbn [andb].
      constructor; [reflexivity |]. apply IH; [simpl in Hlen; lia | exact Htl2].
    + assert (c0 = d0) as <-.
      { apply sameLetter_high; [exact H0 |]. left.
        destruct (N.lt_ge_cases (N_of_ascii c0) 128) as [Hlt|Hge]; [| exact Hge].
        apply first_AS in Hlt. congruence. }
      assert (Hlo : (128 <= lo)%N) by (eapply first_bounds; eauto).
      cbn [utf8.runes]. rewrite Hf.
      destruct Htl as [|c1 d1 t1 u1 H1 Htl1]; [exact Herr |].
      destruct Htl1 as [|c2 d2 t2 u2 H2 Htl2]; [exact Herr |].
      destruct Htl2 as [|c3 d3 t3 u3 H3 Htl3]; [exact Herr |].
      destruct (inRange_SL lo hi c1 d1 Hlo H1) as [Hr1 Heq1]. rewrite <- Hr1.
      destruct (inRange_SL 128 191 c2 d2 (N.le_refl _) H2) as [Hr2 Heq2]. rewrite <- Hr2.
      destruct (inRange_SL 128 191 c3 d3 (N.le_refl _) H3) as [Hr3 Heq3]. rewrite <- Hr3.
      destruct (utf8.inRange lo hi (N_of_ascii c1)) eqn:Hi1; [| exact Herr].
      destruct (utf8.inRange 128 191 (N_of_ascii c2)) eqn:Hi2; [| exact Herr].
      destruct (utf8.inRange 128 191 (N_of_ascii c3)) eqn:Hi3; [| exact Herr].
      rewrite <- (Heq1 eq_refl), <- (Heq2 eq_refl), <- (Heq3 eq_refl). cbn [andb].
      constructor; [reflexivity |]. apply IH; [simpl in Hlen; lia | exact Htl3].
Qed.

Lemma flat_map_Forall2 {A B : Type} (R : A -> A -> Prop) (g : A -> list B) (l l' : list A) :
  (forall x y, R x y -> g x = g y) -> Forall2 R l l' -> flat_map g l = flat_map g l'.
Proof.
  intros Hg Hl. induction Hl as [|x y l l' Hxy _ IH]; [reflexivity |].
  simpl. rewrite (Hg x y Hxy), IH. reflexivity.
Qed.

Lemma caseVariant_Forall2 (s t : string) :
  caseVariant s t = true -> Forall2 SL (list_ascii_of_string s) (list_ascii_of_string t).
Proof.
  revert t. induction s as [|a s IH]; intros [|b t]; simpl; try discriminate.
  - constructor.
  - intros [Hab Hst]%andb_true_iff. constructor; [exact Hab | apply IH; exact Hst].
Qed.

Lemma map_lowerByte_SL (s t : list ascii) :
  Forall2 SL s t -> map lowerByte s = map lowerByte t.
Proof.
  induction 1 as [|a b s t Hab _ IH]; [reflexivity |].
  simpl. rewrite (sameLetter_lower a b Hab), IH. reflexivity.
Qed.

Lemma forallb_ascii_SL (s t : list ascii) :
  Forall2 SL s t ->
  forallb (fun c => (N_of_ascii c <? utf8.RuneSelf)%N) s
  = forallb (fun c => (N_of_ascii c <? utf8.RuneSelf)%N) t.
Proof.
  induction 1 as [|a b s t Hab _ IH]; [reflexivity |].
  simpl. rewrite (sameLetter_ascii a b Hab), IH. reflexivity.
Qed.

Lemma map_lowerByte_no_upper (s : list ascii) :
  existsb (fun c => isUpperByte (N_of_ascii c)) s = false -> map lowerByte s = s.
Proof.
  induction s as [|a s IH]; [reflexivity |].
  simpl. intros [Ha Hs]%orb_false_iff.
  unfold lowerByte at 1. rewrite Ha, (IH Hs). reflexivity.
Qed.

(** On an ASCII string, the result is the byte-wise lowering, with or
    without the shortcut. *)
Lemma ToLower_ascii (s : string) :
  forallb (fun c => (N_of_ascii c <? utf8.RuneSelf)%N) (list_ascii_of_string s) = true ->
  ToLower s = string_of_list_ascii (map lowerByte (list_ascii_of_string s)).
Proof.
  intros Ha. unfold ToLower. rewrite Ha.
  destruct (existsb _ (list_ascii_of_string s)) eqn:Hu; simpl; [reflexivity |].
  rewrite (map_lowerByte_no_upper _ Hu), string_of_list_ascii_of_string. reflexivity.
Qed.

(** Strings that differ only in letter case are lowered to the same
    string, on the ASCII path and on the Unicode path. *)
Lemma ToLower_caseVariant (s t : string) :
  caseVariant s t = true -> ToLower s = ToLower t.
Proof.
  intros Hst%caseVariant_Forall2.
  destruct (forallb (fun c => (N_of_ascii c <? utf8.RuneSelf)%N) (list_ascii_of_string s))
    eqn:Ha.
  - rewrite (ToLower_ascii s Ha).
    rewrite (forallb_ascii_SL _ _ Hst) in Ha. rewrite (ToLower_ascii t Ha).
    rewrite (map_lowerByte_SL _ _ Hst). reflexivity.
  - unfold ToLower. rewrite <- (forallb_ascii_SL _ _ Hst), Ha.
    f_equal. unfold strings_Map.
    apply (flat_map_Forall2 sameLower).
    + intros x y Hxy. unfold sameLower in Hxy. rewrite Hxy. reflexivity.
    + apply (runes_caseVariant (length (list_ascii_of_string s))); [lia | exact Hst].
Qed.

End ToLowerFacts.

(** ** Calls that leave the infrastructure records alone *)

Lemma frames_ret {A : Type} (x : A) : frames (mret x).
Proof. intros m w. reflexivity. Qed.

Lemma frames_fail {A : Type} (err : error) : frames (@failM A err).
Proof. intros m w. reflexivity. Qed.

Lemma frames_bind {A B : Type} (c : M A) (f : A -> M B) :
  frames c -> (forall x, frames (f x)) -> frames (c ≫= f).
Proof.
  intros Hc Hf m w. unfold mbind, M_bind. rewrite (Hc m w).
  destruct (c w) as [[err|x] w']; simpl; [reflexivity | apply Hf].
Qed.

Lemma frames_wrapErr {A : Type} (pre : string) (c : M A) :
  frames c -> frames (wrapErr pre c).
Proof.
  intros Hc m w. unfold wrapErr. rewrite (Hc m w).
  destruct (c w) as [[err|x] w']; reflexivity.
Qed.

Lemma frames_orFail {A : Type} (r : option A * option error) : frames (orFail r).
Proof. destruct r as [[v|] [err|]]; intros m w; reflexivity. Qed.

Lemma frames_GetServiceAccount (key : ObjectKey) : frames (GetServiceAccount key).
Proof.
  intros m w. unfold GetServiceAccount. cbn [ReadFault ServiceAccounts withInfrastructures].
  destruct (ReadFault w KindServiceAccount); [reflexivity |].
  destruct (ServiceAccounts w !! key); reflexivity.
Qed.

Lemma frames_GetSecret (key : ObjectKey) : frames (GetSecret key).
Proof.
  intros m w. unfold GetSecret. cbn [ReadFault SecretsOf withInfrastructures].
  destruct (ReadFault w KindSecret); [reflexivity |].
  destruct (SecretsOf w !! key); reflexivity.
Qed.

Lemma frames_Create (obj : corev1.Secret) : frames (Create obj).
Proof.
  intros m w. unfold Create. cbn [WriteFault SecretsOf withInfrastructures].
  destruct (WriteFault w KindSecret); [reflexivity |].
  destruct (bool_decide _); [reflexivity |].
  destruct (SecretsOf w !! ObjectKeyFromObject obj); reflexivity.
Qed.

Lemma frames_Patch (obj : corev1.Secret) (p : SecretPatch) : frames (Patch obj p).
Proof.
  intros m w. unfold Patch. cbn [WriteFault SecretsOf withInfrastructures].
  destruct (WriteFault w KindSecret); [reflexivity |].
  destruct (SecretsOf w !! ObjectKeyFromObject obj); [| reflexivity].
  destruct (bool_decide _); [reflexivity |].
  destruct (decide _); reflexivity.
Qed.

Lemma frames_CreateOrPatch (obj : corev1.Secret) (f : MutateFn) : frames (CreateOrPatch obj f).
Proof.
  intros m w. unfold CreateOrPatch.
  rewrite (frames_GetSecret _ m w).
  destruct (GetSecret (ObjectKeyFromObject obj) w) as [[err|before] w1]; cbn [fst snd].
  - destruct (IsNotFound err); [| reflexivity].
    destruct (mutate f _ obj) as [err'|obj1]; [reflexivity |].
    rewrite (frames_Create _ m w1).
    destruct (Create obj1 w1) as [[err'|x] w2]; reflexivity.
  - destruct (mutate f _ before) as [err'|after]; [reflexivity |].
    destruct (decide (before = after)); [reflexivity |].
    rewrite (frames_Patch _ _ m w1).
    destruct (Patch after _ w1) as [[err'|x] w2]; reflexivity.
Qed.

Lemma frames_writeConditions upd : frames (writeConditions upd).
Proof.
  intros m w. unfold writeConditions. cbn [ReadFault WriteFault withInfrastructures].
  destruct (ReadFault w KindClusterOperator); [reflexivity |].
  destruct (WriteFault w KindClusterOperator); reflexivity.
Qed.

(** ** The reconcile loop *)

Section ReconcileFacts.
Context `{Externals}.

Lemma frames_reconcileKubeconfig (r : KubeconfigReconciler) : frames (reconcileKubeconfig r).
Proof.
  unfold reconcileKubeconfig.
  apply frames_bind; [apply frames_wrapErr, frames_GetServiceAccount |].
  intros serviceAccount.
  destruct (findTokenSecretRef _ _) as [tokenSecretRef|]; [| apply frames_fail].
  apply frames_bind; [apply frames_wrapErr, frames_GetSecret |]. intros tokenSecret.
  apply frames_bind; [apply frames_wrapErr, frames_orFail |]. intros kubeconfig.
  apply frames_bind; [apply frames_wrapErr, frames_orFail |]. intros out.
  apply frames_bind; [apply frames_wrapErr, frames_CreateOrPatch |]. intros _.
  apply frames_ret.
Qed.
Lemma writeConditions_eq upd (w : Store) :
  writeConditions upd w =
    match statusFault w with
    | Some err => (inl err, w)
    | None => (inr tt, setConditions (upd (Conditions w)) w)
    end.
Proof.
  unfold writeConditions, statusFault.
  destruct (ReadFault w KindClusterOperator); [reflexivity |].
  destruct (WriteFault w KindClusterOperator); reflexivity.
Qed.

Lemma GetInfrastructure_store (name : string) (w : Store) :
  snd (GetInfrastructure name w) = w.
Proof.
  unfold GetInfrastructure.
  destruct (ReadFault w KindInfrastructure); [reflexivity |].
  destruct (Infrastructures w !! name); reflexivity.
Qed.

(** C4, as amended.  When the read of the infrastructure record fails
    (not-found or any other failure), the loop asks for the Degraded
    condition with the read error as its cause and does nothing else: the
    reconciler and the typed records of the store (the secrets among them)
    are as before.  When the status write goes through, the Degraded
    condition carries the text of the read error, it is the only change to
    the store, and the read error is what the loop returns; when the status
    write fails, the store is unchanged and the loop returns the failure of
    the status write under "error syncing ClusterOperatorStatus: ". *)
Theorem Reconcile_infrastructure_unreadable (r : KubeconfigReconciler) (w : Store) (err : error) :
  fst (GetInfrastructure InfrastructureResourceName w) = inl err ->
  let '((res, e), r', w') := Reconcile r w in
  res = emptyResult /\ r' = r /\ sameRecords w w'
  /\ match statusFault w with
     | None =>
         e = Some err
         /\ Conditions w' !! "Degraded" = Some (configv1.mkCondition true (Error err))
         /\ w' = setConditions
                   (<["Degraded" := configv1.mkCondition true (Error err)]> (Conditions w)) w
     | Some serr =>
         e = Some (Errorf "error syncing ClusterOperatorStatus: " serr)
         /\ w' = w
     end.
Proof.
  intros Hget. unfold Reconcile.
  pose proof (GetInfrastructure_store InfrastructureResourceName w) as Hs.
  destruct (GetInfrastructure InfrastructureResourceName w) as [[err'|infra] w0];
    simpl in Hget, Hs; [| discriminate]. injection Hget as ->. subst w0.
  unfold SetStatusDegraded. rewrite writeConditions_eq.
  destruct (statusFault w) as [serr|]; simpl.
  - repeat split.
  - repeat split. apply lookup_insert_eq.
Qed.

(** C5, as amended.  When the infrastructure record is read and its
    platform status is absent, or its platform type, lowered by
    strings.ToLower, is not a key of the supported-platform set, the loop
    asks for the Available condition and does nothing else: the typed
    records of the store (the secrets among them) are as before.  When the
    status write goes through, Available is set and the loop returns
    success; when it fails, the store is unchanged and the loop returns the
    failure of the status write. *)
Theorem Reconcile_not_applicable (r : KubeconfigReconciler) (w : Store)
    (infra : configv1.Infrastructure) :
  fst (GetInfrastructure InfrastructureResourceName w) = inr infra ->
  (configv1.PlatformStatus_ (configv1.Status infra) = None
   \/ exists platformStatus,
        configv1.PlatformStatus_ (configv1.Status infra) = Some platformStatus
        /\ SupportedPlatforms r !! ToLower (configv1.PlatformType platformStatus) = None) ->
  let '((res, e), _, w') := Reconcile r w in
  res = emptyResult /\ sameRecords w w'
  /\ match statusFault w with
     | None =>
         e = None
         /\ Conditions w' !! "Available" = Some (configv1.mkCondition true "")
     | Some serr => e = Some serr /\ w' = w
     end.
Proof.
  intros Hget Hgate. unfold Reconcile.
  pose proof (GetInfrastructure_store InfrastructureResourceName w) as Hs.
  destruct (GetInfrastructure InfrastructureResourceName w) as [[err'|infra'] w0];
    simpl in Hget, Hs; [discriminate |]. injection Hget as ->. subst w0.
  assert (Hfin : forall r0,
            let '((res, e), _, w') := finish r0 id None (SetStatusAvailable w) in
            res = emptyResult /\ sameRecords w w'
            /\ match statusFault w with
               | None => e = None
                         /\ Conditions w' !! "Available" = Some (configv1.mkCondition true "")
               | Some serr => e = Some serr /\ w' = w
               end).
  { intros r0. unfold SetStatusAvailable. rewrite writeConditions_eq.
    destruct (statusFault w) as [serr|]; simpl.
    - repeat split.
    - repeat split. apply lookup_insert_eq. }
  destruct Hgate as [Hnone | (ps & Hsome & Hlook)].
  - rewrite Hnone. apply Hfin.
  - rewrite Hsome. cbn [SupportedPlatforms setClusterName]. rewrite Hlook. apply Hfin.
Qed.

Lemma Reconcile_with_platform (r : KubeconfigReconciler) (w : Store)
    (m : gmap string configv1.Infrastructure) (infra : configv1.Infrastructure) (t : string) :
  let store :=
    withInfrastructures (<[InfrastructureResourceName := withPlatformType t infra]> m) w in
  Reconcile r store =
    match ReadFault w KindInfrastructure with
    | Some err =>
        finish r (Errorf "error syncing ClusterOperatorStatus: ") (Some err)
               (SetStatusDegraded err store)
    | None =>
        let r' := setClusterName (configv1.InfrastructureName (configv1.Status infra)) r in
        match SupportedPlatforms r !! ToLower t with
        | None => finish r' id None (SetStatusAvailable store)
        | Some _ =>
            match reconcileKubeconfig r' store with
            | (inl err, w') =>
                finish r' (Errorf "error syncing ClusterOperatorStatus: ") (Some err)
                       (SetStatusDegraded err w')
            | (inr _, w') => finish r' id None (SetStatusAvailable w')
            end
        end
    end.
Proof.
  intros store. unfold Reconcile, GetInfrastructure.
  change (ReadFault store KindInfrastructure) with (ReadFault w KindInfrastructure).
  destruct (ReadFault w KindInfrastructure) as [rerr|]; [reflexivity |].
  change (Infrastructures store)
    with (<[InfrastructureResourceName := withPlatformType t infra]> m).
  rewrite lookup_insert_eq. reflexivity.
Qed.

(** C10.  Two platform type strings that differ only in letter case are
    looked up under the same key of the supported-platform set, and the
    reconcile loop run on the infrastructure record with the one and with
    the other returns the same result and error, leaves the reconciler in
    the same state, and leaves the same secrets, revision and status
    conditions in the store. *)
Theorem Reconcile_platform_case_insensitive
    (r : KubeconfigReconciler) (w : Store) (infra : configv1.Infrastructure)
    (t1 t2 : string) :
  caseVariant t1 t2 = true ->
  let store t :=
    withInfrastructures
      (<[InfrastructureResourceName := withPlatformType t infra]> (Infrastructures w)) w in
  SupportedPlatforms r !! ToLower t1 = SupportedPlatforms r !! ToLower t2
  /\ let '((res1, e1), r1, w1) := Reconcile r (store t1) in
     let '((res2, e2), r2, w2) := Reconcile r (store t2) in
     res1 = res2 /\ e1 = e2 /\ r1 = r2
     /\ SecretsOf w1 = SecretsOf w2 /\ Revision w1 = Revision w2
     /\ Conditions w1 = Conditions w2.
Proof.
  intros Hcase store.
  pose proof (ToLower_caseVariant t1 t2 Hcase) as Hlow.
  split; [rewrite Hlow; reflexivity |].
  assert (Hfin : forall (r0 : KubeconfigReconciler) f o (c : M unit) m1 m2 w0,
            frames c ->
            let '((res1, e1), r1, w1) := finish r0 f o (c (withInfrastructures m1 w0)) in
            let '((res2, e2), r2, w2) := finish r0 f o (c (withInfrastructures m2 w0)) in
            res1 = res2 /\ e1 = e2 /\ r1 = r2
            /\ SecretsOf w1 = SecretsOf w2 /\ Revision w1 = Revision w2
            /\ Conditions w1 = Conditions w2).
  { intros r0 f o c m1 m2 w0 Hc. rewrite (Hc m1 w0), (Hc m2 w0).
    destruct (c w0) as [[err|[]] w']; simpl; repeat split. }
  unfold store. rewrite !Reconcile_with_platform, <- Hlow.
  destruct (ReadFault w KindInfrastructure) as [rerr|].
  { apply Hfin, frames_writeConditions. }
  cbv zeta.
  destruct (SupportedPlatforms r !! ToLower t1) as [b|].
  - set (r' := setClusterName _ r).
    rewrite !(frames_reconcileKubeconfig r').
    destruct (reconcileKubeconfig r' w) as [[err|[]] w']; cbn [fst snd];
      apply Hfin, frames_writeConditions.
  - apply Hfin, frames_writeConditions.
Qed.

End ReconcileFacts.

(** ** The definitions at work *)

(** The whole loop on a fresh store: the platform type "AWS" is looked up
    as "aws", the kubeconfig secret is created under revision 2, the status
    is Available; a second run changes nothing. *)
Example Reconcile_sample_run :
  let '((res, e), r', w') := @Reconcile sampleExternals sampleReconciler (sampleStore "AWS") in
  e = None
  /\ r_clusterName r' = "test"
  /\ (exists stored,
        SecretsOf w' !! ("openshift-cluster-api", "test-kubeconfig") = Some stored
        /\ rvOf stored = "2"
        /\ metav1.Labels (corev1.ObjectMeta stored) = {[ clusterv1.ClusterLabelName := "test" ]}
        /\ corev1.SecretType stored = clusterv1.ClusterSecretType)
  /\ Conditions w' !! "Available" = Some (configv1.mkCondition true "")
  /\ snd (@Reconcile sampleExternals sampleReconciler w') = w'.
Proof.
  vm_compute. repeat split. eexists. repeat split.
Qed.

Example ToLower_samples :
  @ToLower sampleExternals "AWS" = "aws"
  /\ @ToLower sampleExternals "OpenStack" = "openstack"
  /\ @ToLower sampleExternals "gcp" = "gcp"
  /\ (let eacute := String (ascii_of_nat 195) (String (ascii_of_nat 169) "") in
      @ToLower sampleExternals (eacute +:+ "A") = eacute +:+ "a")
  /\ (let euro :=
        String (ascii_of_nat 226) (String (ascii_of_nat 130) (String (ascii_of_nat 172) "")) in
      @ToLower sampleExternals (euro +:+ "B") = euro +:+ "b")
  /\ (let face :=
        String (ascii_of_nat 240) (String (ascii_of_nat 159)
          (String (ascii_of_nat 152) (String (ascii_of_nat 128) ""))) in
      @ToLower sampleExternals ("C" +:+ face) = "c" +:+ face)
  /\ (let stray := String (ascii_of_nat 255) "" in
      let replacement :=
        String (ascii_of_nat 239) (String (ascii_of_nat 191) (String (ascii_of_nat 189) "")) in
      @ToLower sampleExternals (stray +:+ "A") = replacement +:+ "a").
Proof. vm_compute. repeat split. Qed.

Example caseVariant_samples :
  caseVariant "AWS" "aws" = true
  /\ caseVariant "Azure" "aZURE" = true
  /\ caseVariant "AWS" "AW5" = false
  /\ caseVariant "AWS" "AWSS" = false
  /\ caseVariant "A1" "a1" = true
  /\ caseVariant "@" "`" = false.
Proof. vm_compute. repeat split. Qed.

(** ** Where the claims as stated fail *)

(** C4 as the spec states it fails when the status write itself fails: the
    infrastructure record is not found, the status record is lost to a
    conflict; the loop does not return the not-found error but the failure
    of the status write, and no Degraded condition is written. *)
Lemma Reconcile_unreadable_status_conflict :
  let w := withWriteFault statusConflict (withInfrastructures ∅ (sampleStore "AWS")) in
  let '((_, e), _, w') := @Reconcile sampleExternals sampleReconciler w in
  fst (GetInfrastructure (@InfrastructureResourceName sampleExternals) w) = inl notFoundCluster
  /\ e = Some (Errorf "error syncing ClusterOperatorStatus: " conflictClusterOperator)
  /\ e <> Some notFoundCluster
  /\ Conditions w' !! "Degraded" = None.
Proof.
  vm_compute. repeat split. discriminate.
Qed.

(** C5 as the spec states it fails twice.  The platform type "AWS" is not a
    key of the supported set, whose key is "aws", yet the loop goes on and
    creates the kubeconfig secret: the lookup is made under the lowered
    type.  And with no platform status but a status record lost to a
    conflict, the loop returns the failure of the status write, not
    success, and Available is not set. *)
Lemma Reconcile_unlisted_platform_proceeds :
  (let w := sampleStore "AWS" in
   let key : ObjectKey := ("openshift-cluster-api", "test-kubeconfig") in
   fst (GetInfrastructure (@InfrastructureResourceName sampleExternals) w)
     = inr (sampleInfrastructure "AWS")
   /\ SupportedPlatforms sampleReconciler !! "AWS" = None
   /\ SecretsOf w !! key = None
   /\ is_Some (SecretsOf (snd (@Reconcile sampleExternals sampleReconciler w)) !! key))
  /\ (let w := withWriteFault statusConflict
                 (withInfrastructures {[ "cluster" := sampleInfrastructureNoPlatform ]}
                    (sampleStore "AWS")) in
      let '((_, e), _, w') := @Reconcile sampleExternals sampleReconciler w in
      fst (GetInfrastructure (@InfrastructureResourceName sampleExternals) w)
        = inr sampleInfrastructureNoPlatform
      /\ e = Some conflictClusterOperator
      /\ Conditions w' !! "Available" = None).
Proof.
  split.
  - vm_compute. repeat split. eexists. reflexivity.
  - vm_compute. repeat split.
Qed.

(** C6 as the spec states it fails on a stored record that carries an
    annotation of somebody else: the desired record has the very payload,
    label and type of the stored one, and still the upsert removes the
    annotation and the record gets a new revision. *)
Lemma upsert_removes_foreign_annotation :
  let d := @kubeconfigSecretFor sampleExternals "test" "payload" in
  let key : ObjectKey := ("openshift-cluster-api", "test-kubeconfig") in
  let '(res, w') := upsertKubeconfigSecret d annotatedStore in
  SecretsOf annotatedStore !! key = Some annotatedKubeconfigSecret
  /\ metav1.Annotations (corev1.ObjectMeta annotatedKubeconfigSecret) !! "example.com/owner"
     = Some "team-a"
  /\ rvOf annotatedKubeconfigSecret = "7"
  /\ corev1.Data annotatedKubeconfigSecret = corev1.Data d
  /\ res = inr OperationResultUpdated
  /\ exists stored,
       SecretsOf w' !! key = Some stored
       /\ metav1.Annotations (corev1.ObjectMeta stored) !! "example.com/owner" = None
       /\ rvOf stored = "8".
Proof.
  vm_compute. repeat split. eexists. repeat split.
Qed.

(** The same on a stored record whose labels, annotations, payload and type
    are already the desired ones but which is held by a finalizer and owned
    by another record: the upsert patches it all the same, finalizer and
    owner reference are removed and the record gets a new revision. *)
Example upsert_removes_finalizer_and_owner :
  let d := @kubeconfigSecretFor sampleExternals "test" "payload" in
  let key : ObjectKey := ("openshift-cluster-api", "test-kubeconfig") in
  let '(res, w') := upsertKubeconfigSecret d ownedStore in
  SecretsOf ownedStore !! key = Some ownedKubeconfigSecret
  /\ sameContent ownedKubeconfigSecret d
  /\ metav1.Finalizers (corev1.ObjectMeta ownedKubeconfigSecret) = [ "example.com/hold" ]
  /\ rvOf ownedKubeconfigSecret = "7"
  /\ res = inr OperationResultUpdated
  /\ exists stored,
       SecretsOf w' !! key = Some stored
       /\ metav1.Finalizers (corev1.ObjectMeta stored) = []
       /\ metav1.OwnerReferences (corev1.ObjectMeta stored) = []
       /\ rvOf stored = "8".
Proof.
  vm_compute. repeat split. eexists. repeat split.
Qed.

(** ** The theorems at concrete inputs *)

Lemma Reconcile_infrastructure_unreadable_witness :
  let w := withInfrastructures ∅ (sampleStore "AWS") in
  let '((res, e), r', w') := @Reconcile sampleExternals sampleReconciler w in
  res = emptyResult /\ r' = sampleReconciler /\ sameRecords w w'
  /\ match statusFault w with
     | None =>
         e = Some notFoundCluster
         /\ Conditions w' !! "Degraded"
            = Some (configv1.mkCondition true (Error notFoundCluster))
         /\ w' = setConditions
                   (<["Degraded" := configv1.mkCondition true (Error notFoundCluster)]>
                      (Conditions w)) w
     | Some serr =>
         e = Some (Errorf "error syncing ClusterOperatorStatus: " serr)
         /\ w' = w
     end.
Proof.
  exact (@Reconcile_infrastructure_unreadable sampleExternals sampleReconciler
           (withInfrastructures ∅ (sampleStore "AWS")) notFoundCluster eq_refl).
Defined.

Lemma Reconcile_not_applicable_witness :
  let w := sampleStore "VSphere" in
  let '((res, e), _, w') := @Reconcile sampleExternals sampleReconciler w in
  res = emptyResult /\ sameRecords w w'
  /\ match statusFault w with
     | None =>
         e = None
         /\ Conditions w' !! "Available" = Some (configv1.mkCondition true "")
     | Some serr => e = Some serr /\ w' = w
     end.
Proof.
  refine (@Reconcile_not_applicable sampleExternals sampleReconciler
            (sampleStore "VSphere") (sampleInfrastructure "VSphere") eq_refl _).
  right. exists {| configv1.PlatformType := "VSphere" |}. split; reflexivity.
Defined.

Lemma upsert_existing_witness :
  exists op stored w',
    upsertKubeconfigSecret (@kubeconfigSecretFor sampleExternals "test" "payload") ownedStore
    = (inr op, w')
    /\ SecretsOf w' !! ("openshift-cluster-api", "test-kubeconfig") = Some stored
    /\ sameContent stored (@kubeconfigSecretFor sampleExternals "test" "payload")
    /\ metav1.Finalizers (corev1.ObjectMeta stored) = []
    /\ rvOf stored = "8".
Proof.
  destruct (@upsert_existing sampleExternals "test" "payload" ownedStore
              ownedKubeconfigSecret eq_refl eq_refl eq_refl)
    as (op & stored & w' & Hup & Hlook & Hsame & _ & Hfinalizers & _ & _ & _ & Hrev).
  exists op, stored, w'.
  split; [exact Hup |]. split; [exact Hlook |]. split; [exact Hsame |].
  split; [exact Hfinalizers |].
  apply Hrev. intros (_ & _ & Hheld). discriminate Hheld.
Defined.

Lemma upsert_twice_witness :
  let d := @kubeconfigSecretFor sampleExternals "test" "payload" in
  let once := upsertKubeconfigSecret d (sampleStore "AWS") in
  let twice := upsertKubeconfigSecret d (snd once) in
  snd twice = snd once
  /\ (exists stored,
        SecretsOf (snd once) !! ("openshift-cluster-api", "test-kubeconfig") = Some stored
        /\ sameContent stored d)
  /\ (exists op1 op2, fst once = inr op1 /\ fst twice = inr op2).
Proof.
  destruct (@upsert_twice sampleExternals "test" "payload" (sampleStore "AWS"))
    as (Hsame & Hthere & Hok).
  split; [exact Hsame |]. split.
  - apply (Hthere OperationResultCreated). reflexivity.
  - apply Hok; reflexivity.
Defined.

Lemma Reconcile_platform_case_insensitive_witness :
  SupportedPlatforms sampleReconciler !! @ToLower sampleExternals "AWS"
  = SupportedPlatforms sampleReconciler !! @ToLower sampleExternals "aws".
Proof.
  exact (proj1 (@Reconcile_platform_case_insensitive sampleExternals sampleReconciler
                  (sampleStore "AWS") (sampleInfrastructure "AWS") "AWS" "aws" eq_refl)).
Defined.

(* ===================================================================== *)
(** * Further properties of the kubeconfig controller and of the filters *)
(* ===================================================================== *)

(** ** The token secret reference (lines 98 to 109) *)

Lemma findTokenSecretRef_snoc (pre : string) (refs : list corev1.ObjectReference)
    (x : corev1.ObjectReference) :
  findTokenSecretRef pre (refs ++ [x])%list =
    if HasPrefix (corev1.RefName x) pre then Some x else findTokenSecretRef pre refs.
Proof. unfold findTokenSecretRef. rewrite fold_left_app. reflexivity. Qed.

Lemma findTokenSecretRef_None (pre : string) (refs : list corev1.ObjectReference) :
  findTokenSecretRef pre refs = None
  <-> Forall (fun x => HasPrefix (corev1.RefName x) pre = false) refs.
Proof.
  induction refs as [|x refs IH] using rev_ind.
  - split; [constructor | reflexivity].
  - rewrite findTokenSecretRef_snoc, Forall_app.
    destruct (HasPrefix (corev1.RefName x) pre) eqn:Hx.
    + split; [discriminate |]. intros [_ Hl]. inversion Hl; congruence.
    + rewrite IH. split; [intros Hl; split; [exact Hl | repeat constructor; exact Hx] | tauto].
Qed.

Lemma findTokenSecretRef_prefix (pre : string) (refs : list corev1.ObjectReference)
    (ref : corev1.ObjectReference) :
  findTokenSecretRef pre refs = Some ref -> HasPrefix (corev1.RefName ref) pre = true.
Proof.
  induction refs as [|x refs IH] using rev_ind; [discriminate |].
  rewrite findTokenSecretRef_snoc.
  destruct (HasPrefix (corev1.RefName x) pre) eqn:Hx; [intros [= <-]; exact Hx | exact IH].
Qed.

(** X1.  The token secret reference is the last reference of the service
    account whose name has the prefix: there is none exactly when no
    reference has the prefix, and otherwise it is a reference of the list
    with the prefix after which no reference has the prefix. *)
Theorem findTokenSecretRef_last (pre : string) (refs : list corev1.ObjectReference) :
  (findTokenSecretRef pre refs = None
   <-> Forall (fun x => HasPrefix (corev1.RefName x) pre = false) refs)
  /\ forall ref,
       findTokenSecretRef pre refs = Some ref
       <-> exists before after,
             refs = (before ++ ref :: after)%list
             /\ HasPrefix (corev1.RefName ref) pre = true
             /\ Forall (fun x => HasPrefix (corev1.RefName x) pre = false) after.
Proof.
  split; [apply findTokenSecretRef_None |].
  induction refs as [|x refs IH] using rev_ind; intros ref.
  - split; [discriminate |]. intros (before & after & Heq & _).
    destruct before; discriminate.
  - rewrite findTokenSecretRef_snoc.
    destruct (HasPrefix (corev1.RefName x) pre) eqn:Hx.
    + split.
      * intros [= <-]. exists refs, []. auto.
      * intros (before & after & Heq & Hp & Hafter).
        destruct after as [|y after _] using rev_ind.
        -- apply app_inj_tail in Heq as [_ ->]. reflexivity.
        -- rewrite app_comm_cons, app_assoc in Heq.
           apply app_inj_tail in Heq as [_ ->].
           apply Forall_app in Hafter as [_ Hy]. inversion Hy; congruence.
    + rewrite IH. split.
      * intros (before & after & -> & Hp & Hafter).
        exists before, (after ++ [x])%list. rewrite <- app_assoc. simpl.
        split; [reflexivity |]. split; [exact Hp |].
        apply Forall_app. split; [exact Hafter | repeat constructor; exact Hx].
      * intros (before & after & Heq & Hp & Hafter).
        destruct after as [|y after _] using rev_ind.
        -- apply app_inj_tail in Heq as [_ ->]. congruence.
        -- rewrite app_comm_cons, app_assoc in Heq.
           apply app_inj_tail in Heq as [-> ->].
           apply Forall_app in Hafter as [Hafter _].
           exists before, after. auto.
Qed.

Example findTokenSecretRef_samples :
  findTokenSecretRef tokenPrefix (corev1.Secrets sampleServiceAccount)
    = Some {| corev1.RefName := "cluster-capi-operator-token-x7k2p" |}
  /\ findTokenSecretRef tokenPrefix
       [ {| corev1.RefName := "cluster-capi-operator-token-aaaaa" |};
         {| corev1.RefName := "cluster-capi-operator-dockercfg-9xq4z" |};
         {| corev1.RefName := "cluster-capi-operator-token-zzzzz" |};
         {| corev1.RefName := "builder-token-12345" |} ]
     = Some {| corev1.RefName := "cluster-capi-operator-token-zzzzz" |}
  /\ findTokenSecretRef tokenPrefix [ {| corev1.RefName := "cluster-capi-operator" |} ] = None
  /\ findTokenSecretRef tokenPrefix [] = None.
Proof. repeat split. Qed.

(** ** What the calls write *)

Lemma GetServiceAccount_store (key : ObjectKey) (w : Store) :
  snd (GetServiceAccount key w) = w.
Proof.
  unfold GetServiceAccount. destruct (ReadFault w KindServiceAccount); [reflexivity |].
  destruct (ServiceAccounts w !! key); reflexivity.
Qed.

Lemma touchesOnly_refl (key : ObjectKey) (w : Store) : touchesOnly key w w.
Proof. repeat split. Qed.

Lemma Create_touchesOnly (obj : corev1.Secret) (w : Store) :
  touchesOnly (ObjectKeyFromObject obj) w (snd (Create obj w))
  /\ (forall err, fst (Create obj w) = inl err -> snd (Create obj w) = w).
Proof.
  unfold Create.
  destruct (WriteFault w KindSecret); [split; [apply touchesOnly_refl | reflexivity] |].
  destruct (bool_decide _); [split; [apply touchesOnly_refl | reflexivity] |].
  destruct (SecretsOf w !! ObjectKeyFromObject obj);
    [split; [apply touchesOnly_refl | reflexivity] |].
  split; [| discriminate].
  repeat split. intros k Hk. cbn [snd SecretsOf setSecrets].
  apply lookup_insert_ne. congruence.
Qed.

Lemma Patch_touchesOnly (obj : corev1.Secret) (p : SecretPatch) (w : Store) :
  touchesOnly (ObjectKeyFromObject obj) w (snd (Patch obj p w))
  /\ (forall err, fst (Patch obj p w) = inl err -> snd (Patch obj p w) = w).
Proof.
  unfold Patch.
  destruct (WriteFault w KindSecret); [split; [apply touchesOnly_refl | reflexivity] |].
  destruct (SecretsOf w !! ObjectKeyFromObject obj);
    [| split; [apply touchesOnly_refl | reflexivity]].
  destruct (bool_decide _); [split; [apply touchesOnly_refl | reflexivity] |].
  destruct (decide _); [split; [apply touchesOnly_refl | reflexivity] |].
  split; [| discriminate].
  repeat split. intros k Hk. cbn [snd SecretsOf setSecrets].
  apply lookup_insert_ne. congruence.
Qed.

Lemma mutate_key (f : MutateFn) (key : ObjectKey) (obj obj' : corev1.Secret) :
  mutate f key obj = inr obj' -> ObjectKeyFromObject obj' = key.
Proof.
  unfold mutate. destruct (f obj) as [err|o]; [discriminate |].
  destruct (bool_decide (ObjectKeyFromObject o = key)) eqn:Hk; [| discriminate].
  intros [= <-]. apply bool_decide_eq_true in Hk. exact Hk.
Qed.

(** CreateOrPatch writes under the key of the object it is given and
    nowhere else, and a failed call has written nothing. *)
Lemma CreateOrPatch_touchesOnly (obj : corev1.Secret) (f : MutateFn) (w : Store) :
  touchesOnly (ObjectKeyFromObject obj) w (snd (CreateOrPatch obj f w))
  /\ (forall err, fst (CreateOrPatch obj f w) = inl err -> snd (CreateOrPatch obj f w) = w).
Proof.
  unfold CreateOrPatch.
  pose proof (GetSecret_store (ObjectKeyFromObject obj) w) as Hs.
  destruct (GetSecret (ObjectKeyFromObject obj) w) as [[gerr|before] w1];
    cbn [snd] in Hs; subst w1.
  - destruct (IsNotFound gerr); [| split; [apply touchesOnly_refl | reflexivity]].
    destruct (mutate f _ obj) as [merr|obj1] eqn:Hm;
      [split; [apply touchesOnly_refl | reflexivity] |].
    apply mutate_key in Hm.
    destruct (Create_touchesOnly obj1 w) as [Ht Hf]. rewrite Hm in Ht.
    destruct (Create obj1 w) as [[cerr|x] w2]; cbn [fst snd] in *.
    + split; [exact Ht |]. intros _ _. apply (Hf cerr eq_refl).
    + split; [exact Ht | discriminate].
  - destruct (mutate f _ before) as [merr|after] eqn:Hm;
      [split; [apply touchesOnly_refl | reflexivity] |].
    apply mutate_key in Hm.
    destruct (decide (before = after)); [split; [apply touchesOnly_refl | discriminate] |].
    destruct (Patch_touchesOnly after (MergeFrom before after) w) as [Ht Hf].
    rewrite Hm in Ht.
    destruct (Patch after _ w) as [[perr|x] w2]; cbn [fst snd] in *.
    + split; [exact Ht |]. intros _ _. apply (Hf perr eq_refl).
    + split; [exact Ht | discriminate].
Qed.

(** An upsert served by the store leaves the desired content under the key. *)
Lemma upsert_served (d : corev1.Secret) (w : Store) :
  rvOf d = "" ->
  ReadFault w KindSecret = None -> WriteFault w KindSecret = None ->
  exists op stored,
    fst (upsertKubeconfigSecret d w) = inr op
    /\ SecretsOf (snd (upsertKubeconfigSecret d w)) !! ObjectKeyFromObject d = Some stored
    /\ sameContent stored d.
Proof.
  intros Hrv Hrf Hwf.
  rewrite upsert_unfold, GetSecret_eq, Hrf.
  destruct (SecretsOf w !! ObjectKeyFromObject d) as [cur|] eqn:Hcur.
  - destruct (decide (cur = d)) as [->|Hne].
    { exists OperationResultNone, d. cbn [fst snd]. repeat split. exact Hcur. }
    rewrite (Patch_desired d cur w Hrv Hwf Hcur).
    destruct (decide _) as [Hsame|Hdiff]; cbv zeta; cbn [fst snd].
    + exists OperationResultUpdated, cur.
      split; [reflexivity |]. split; [exact Hcur | apply sameContent_of_unchanged; exact Hsame].
    + eexists OperationResultUpdated, _. split; [reflexivity |].
      cbn [SecretsOf setSecrets]. split; [apply lookup_insert_eq |].
      rewrite applyPatch_MergeFrom. repeat split.
  - rewrite IsNotFound_NewNotFound, (Create_desired d w Hrv), Hwf, Hcur. cbv zeta.
    eexists OperationResultCreated, _. cbn [fst snd SecretsOf setSecrets].
    split; [reflexivity |]. split; [apply lookup_insert_eq | repeat split].
Qed.


(** An upsert that went through goes through again, on the store it left,
    and leaves it as it is. *)
Lemma upsert_again (d : corev1.Secret) (w : Store) (op : OperationResult) :
  rvOf d = "" ->
  ReadFault w KindSecret = None ->
  fst (upsertKubeconfigSecret d w) = inr op ->
  exists op',
    upsertKubeconfigSecret d (snd (upsertKubeconfigSecret d w))
    = (inr op', snd (upsertKubeconfigSecret d w)).
Proof.
  intros Hrv Hrf Hok.
  pose proof (upsert_idempotent_store d w Hrv) as Hst.
  assert (Hsucc : exists op',
             fst (upsertKubeconfigSecret d (snd (upsertKubeconfigSecret d w))) = inr op').
  { revert Hok. rewrite (upsert_unfold d w), GetSecret_eq, Hrf.
    destruct (SecretsOf w !! ObjectKeyFromObject d) as [cur|] eqn:Hcur.
    - destruct (decide (cur = d)) as [->|Hne].
      { intros _. cbn [snd]. rewrite upsert_unfold, GetSecret_eq, Hrf, Hcur.
        rewrite decide_True by reflexivity. eauto. }
      destruct (WriteFault w KindSecret) as [werr|] eqn:Hwf.
      { rewrite (Patch_fault _ _ _ _ Hwf). discriminate. }
      intros _.
      match goal with
      | |- context [snd ?x] =>
          assert (Hf : ReadFault (snd x) KindSecret = None
                       /\ WriteFault (snd x) KindSecret = None)
      end.
      { rewrite (Patch_desired d cur w Hrv Hwf Hcur).
        destruct (decide _); cbv zeta; cbn [snd]; auto. }
      destruct Hf as [Hrf' Hwf'].
      destruct (upsert_served d _ Hrv Hrf' Hwf') as (op' & _ & Hop & _). eauto.
    - rewrite IsNotFound_NewNotFound.
      destruct (WriteFault w KindSecret) as [werr|] eqn:Hwf.
      { unfold Create. rewrite Hwf. discriminate. }
      intros _.
      match goal with
      | |- context [snd ?x] =>
          assert (Hf : ReadFault (snd x) KindSecret = None
                       /\ WriteFault (snd x) KindSecret = None)
      end.
      { rewrite (Create_desired d w Hrv), Hwf, Hcur. cbv zeta; cbn [snd]; auto. }
      destruct Hf as [Hrf' Hwf'].
      destruct (upsert_served d _ Hrv Hrf' Hwf') as (op' & _ & Hop & _). eauto. }
  destruct Hsucc as [op' Hop']. exists op'.
  destruct (upsertKubeconfigSecret d (snd (upsertKubeconfigSecret d w))) as [res w2];
    cbn [fst snd] in *. congruence.
Qed.

(** ** Strings: the suffix of the secret name *)

Lemma length_append (s t : string) :
  String.length (s +:+ t) = String.length s + String.length t.
Proof.
  induction s as [|a s IH]; [reflexivity |].
  change (String a s +:+ t) with (String a (s +:+ t)). simpl. rewrite IH. reflexivity.
Qed.

Lemma append_inj_l (s1 s2 t : string) : s1 +:+ t = s2 +:+ t -> s1 = s2.
Proof.
  revert s2. induction s1 as [|a s1 IH]; intros [|b s2] Heq.
  - reflexivity.
  - apply (f_equal String.length) in Heq. rewrite !length_append in Heq.
    simpl in Heq. lia.
  - apply (f_equal String.length) in Heq. rewrite !length_append in Heq.
    simpl in Heq. lia.
  - change (String a s1 +:+ t) with (String a (s1 +:+ t)) in Heq.
    change (String b s2 +:+ t) with (String b (s2 +:+ t)) in Heq.
    injection Heq as -> Heq. f_equal. apply IH. exact Heq.
Qed.

(** ** reconcileKubeconfig (lines 85 to 165) *)

Section ReconcileKubeconfigFacts.
Context `{Externals}.

Lemma kubeconfigKey_eq (name out : string) :
  ObjectKeyFromObject (kubeconfigSecretFor name out) = kubeconfigKey name.
Proof. reflexivity. Qed.

(** X8.  The key of the kubeconfig secret determines the cluster: two
    cluster names with the same secret key are the same name, so the
    secrets of two clusters never fall on each other. *)
Theorem kubeconfigKey_injective (name1 name2 : string) :
  kubeconfigKey name1 = kubeconfigKey name2 -> name1 = name2.
Proof.
  unfold kubeconfigKey. intros Heq.
  injection Heq as Hname. apply append_inj_l in Hname. exact Hname.
Qed.

(** X7.  When no record is under the key and the store serves the calls,
    the upsert creates the desired record as it is, under the next revision
    of the store, and changes no other secret. *)
Theorem upsert_absent_creates (name out : string) (w : Store) :
  let d := kubeconfigSecretFor name out in
  ReadFault w KindSecret = None ->
  WriteFault w KindSecret = None ->
  SecretsOf w !! kubeconfigKey name = None ->
  exists w',
    upsertKubeconfigSecret d w = (inr OperationResultCreated, w')
    /\ SecretsOf w' !! kubeconfigKey name
       = Some (withResourceVersion (pretty (nextRevision w)) d)
    /\ Revision w' = nextRevision w
    /\ touchesOnly (kubeconfigKey name) w w'.
Proof.
  intros d Hrf Hwf Hnone.
  rewrite upsert_unfold, GetSecret_eq, Hrf.
  change (ObjectKeyFromObject d) with (kubeconfigKey name). rewrite Hnone.
  rewrite IsNotFound_NewNotFound, (Create_desired d w eq_refl), Hwf.
  change (ObjectKeyFromObject d) with (kubeconfigKey name). rewrite Hnone. cbv zeta.
  eexists. split; [reflexivity |]. cbn [SecretsOf Revision setSecrets].
  split; [apply lookup_insert_eq |]. split; [reflexivity |].
  repeat split. intros k Hk. cbn [SecretsOf setSecrets].
  apply lookup_insert_ne. congruence.
Qed.

(** The body of reconcileKubeconfig, call by call. *)
Lemma reconcileKubeconfig_eq (r : KubeconfigReconciler) (w : Store) :
  reconcileKubeconfig r w =
    match fst (GetServiceAccount (DefaultManagedNamespace, serviceAccountName) w) with
    | inl err =>
        (inl (Errorf ("error retrieving ServiceAccount " +:+ serviceAccountName +:+ ": ") err),
         w)
    | inr serviceAccount =>
        match findTokenSecretRef tokenPrefix (corev1.Secrets serviceAccount) with
        | None =>
            (inl (errors_New ("unable to find token secret for service account "
                              +:+ serviceAccountName)), w)
        | Some tokenSecretRef =>
            match fst (GetSecret (DefaultManagedNamespace, corev1.RefName tokenSecretRef) w)
            with
            | inl err => (inl (Errorf "unable to retrieve Secret object: " err), w)
            | inr tokenSecret =>
                match fst (orFail (generateKubeconfig (optionsFor r tokenSecret)) w) with
                | inl err => (inl (Errorf "error generating kubeconfig: " err), w)
                | inr kubeconfig =>
                    match fst (orFail (clientcmd_Write kubeconfig) w) with
                    | inl err => (inl (Errorf "error writing kubeconfig: " err), w)
                    | inr out =>
                        match upsertKubeconfigSecret
                                (kubeconfigSecretFor (r_clusterName r) out) w with
                        | (inl err, w') =>
                            (inl (Errorf "error reconciling kubeconfig secret: " err), w')
                        | (inr _, w') => (inr tt, w')
                        end
                    end
                end
            end
        end
    end.
Proof.
  unfold reconcileKubeconfig, mbind, M_bind, wrapErr.
  pose proof (GetServiceAccount_store (DefaultManagedNamespace, serviceAccountName) w) as Hs.
  destruct (GetServiceAccount _ w) as [[err|sa] w1]; cbn [fst snd] in *; subst w1;
    [reflexivity |].
  change (serviceAccountName +:+ "-token") with tokenPrefix.
  destruct (findTokenSecretRef tokenPrefix (corev1.Secrets sa)) as [ref|]; [| reflexivity].
  pose proof (GetSecret_store (DefaultManagedNamespace, corev1.RefName ref) w) as Hs.
  destruct (GetSecret _ w) as [[err|ts] w1]; cbn [fst snd] in *; subst w1; [reflexivity |].
  change {| token := _; caCert := _; apiServerEnpoint := _; clusterName := _ |}
    with (optionsFor r ts).
  unfold orFail, failM, mret, M_ret.
  destruct (generateKubeconfig (optionsFor r ts)) as [[cfg|] [gerr|]]; cbn [fst];
    try reflexivity.
  destruct (clientcmd_Write cfg) as [[out|] [werr|]]; cbn [fst]; try reflexivity.
  destruct (upsertKubeconfigSecret _ w) as [[uerr|op] w']; reflexivity.
Qed.

Ltac step_reconcileKubeconfig tac :=
  rewrite reconcileKubeconfig_eq;
  destruct (fst (GetServiceAccount _ _)) as [?err|?serviceAccount]; [tac |];
  destruct (findTokenSecretRef _ _) as [?tokenSecretRef|]; [| tac];
  destruct (fst (GetSecret _ _)) as [?err|?tokenSecret]; [tac |];
  destruct (fst (orFail (generateKubeconfig _) _)) as [?err|?kubeconfig]; [tac |];
  destruct (fst (orFail (clientcmd_Write _) _)) as [?err|?out]; [tac |].

(** The only write of reconcileKubeconfig is its last call. *)
Lemma reconcileKubeconfig_store (r : KubeconfigReconciler) (w : Store) :
  touchesOnly (kubeconfigKey (r_clusterName r)) w (snd (reconcileKubeconfig r w))
  /\ (forall err, fst (reconcileKubeconfig r w) = inl err ->
                  snd (reconcileKubeconfig r w) = w).
Proof.
  step_reconcileKubeconfig ltac:(split; [apply touchesOnly_refl | reflexivity]).
  match goal with
  | |- context [upsertKubeconfigSecret ?d w] =>
      destruct (CreateOrPatch_touchesOnly d (mutateFn d) w) as [Ht Hf];
      fold (upsertKubeconfigSecret d) in Ht, Hf;
      destruct (upsertKubeconfigSecret d w) as [[uerr|op] w']
  end; cbn [fst snd] in *.
  - split; [exact Ht |]. intros _ _. apply (Hf uerr eq_refl).
  - split; [exact Ht | discriminate].
Qed.

(** X2.  A run of reconcileKubeconfig that returns an error has written
    nothing: the store is as it was, whichever call failed (the read of the
    service account, the search of the token secret reference, the read of
    the token secret, the generation, the serialization or the upsert). *)
Theorem reconcileKubeconfig_error_keeps_store (r : KubeconfigReconciler) (w : Store)
    (err : error) :
  fst (reconcileKubeconfig r w) = inl err ->
  snd (reconcileKubeconfig r w) = w.
Proof.
  intros Herr.
  destruct (reconcileKubeconfig_store r w) as [_ Hkeep].
  exact (Hkeep err Herr).
Qed.

(** X3.  Whatever its outcome, reconcileKubeconfig leaves the
    infrastructure records, the service accounts and the status conditions
    as they were, and among the secrets it changes at most the one under
    the key of the kubeconfig secret of the cluster (the managed namespace,
    the cluster name followed by "-kubeconfig"). *)
Theorem reconcileKubeconfig_writes_only_its_secret (r : KubeconfigReconciler) (w : Store) :
  let w' := snd (reconcileKubeconfig r w) in
  Infrastructures w' = Infrastructures w
  /\ ServiceAccounts w' = ServiceAccounts w
  /\ Conditions w' = Conditions w
  /\ forall k, k <> (DefaultManagedNamespace, r_clusterName r +:+ "-kubeconfig") ->
               SecretsOf w' !! k = SecretsOf w !! k.
Proof.
  intros w'.
  destruct (reconcileKubeconfig_store r w) as [(Hi & Hsa & Hc & _ & _ & Hs) _].
  split; [exact Hi |]. split; [exact Hsa |]. split; [exact Hc |].
  intros k Hk. apply Hs. exact Hk.
Qed.

(** X4.  Every error of reconcileKubeconfig is a freshly formatted one: it
    carries no API status, so it is never recognised as not-found, also
    when its cause was a missing service account or a missing token
    secret. *)
Theorem reconcileKubeconfig_error_opaque (r : KubeconfigReconciler) (w : Store)
    (err : error) :
  fst (reconcileKubeconfig r w) = inl err ->
  ErrStatus err = None /\ IsNotFound err = false.
Proof.
  step_reconcileKubeconfig ltac:(intros [= <-]; split; reflexivity).
  destruct (upsertKubeconfigSecret _ w) as [[uerr|op] w']; cbn [fst]; [| discriminate].
  intros [= <-]. split; reflexivity.
Qed.

(** X5.  The success path, call by call.  When the store serves the reads
    and the write, the service account is there with a token secret
    reference, the referenced secret is there, the document is generated from
    its "token" and "ca.crt" entries, the host of the rest configuration and
    the cluster name, and the document is serialized, then
    reconcileKubeconfig succeeds and the store holds, under the key of the
    kubeconfig secret, a record with the serialized document under "value",
    the cluster name label and the cluster secret type. *)
Theorem reconcileKubeconfig_success (r : KubeconfigReconciler) (w : Store)
    (serviceAccount : corev1.ServiceAccount) (tokenSecretRef : corev1.ObjectReference)
    (tokenSecret : corev1.Secret) (kubeconfig : api.Config) (out : string) :
  ReadFault w KindServiceAccount = None ->
  ReadFault w KindSecret = None ->
  WriteFault w KindSecret = None ->
  ServiceAccounts w !! ((DefaultManagedNamespace, serviceAccountName) : ObjectKey)
    = Some serviceAccount ->
  findTokenSecretRef tokenPrefix (corev1.Secrets serviceAccount) = Some tokenSecretRef ->
  SecretsOf w !! ((DefaultManagedNamespace, corev1.RefName tokenSecretRef) : ObjectKey)
    = Some tokenSecret ->
  generateKubeconfig (optionsFor r tokenSecret) = (Some kubeconfig, None) ->
  clientcmd_Write kubeconfig = (Some out, None) ->
  exists w' stored,
    reconcileKubeconfig r w = (inr tt, w')
    /\ SecretsOf w' !! kubeconfigKey (r_clusterName r) = Some stored
    /\ corev1.Data stored = {[ "value" := out ]}
    /\ metav1.Labels (corev1.ObjectMeta stored)
       = {[ clusterv1.ClusterLabelName := r_clusterName r ]}
    /\ corev1.SecretType stored = clusterv1.ClusterSecretType.
Proof.
  intros Hrsa Hrf Hwf Hsa Href Hts Hgen Hwrite.
  assert (Hget1 : fst (GetServiceAccount (DefaultManagedNamespace, serviceAccountName) w)
                  = inr serviceAccount)
    by (unfold GetServiceAccount; rewrite Hrsa, Hsa; reflexivity).
  assert (Hget2 : fst (GetSecret (DefaultManagedNamespace, corev1.RefName tokenSecretRef) w)
                  = inr tokenSecret)
    by (unfold GetSecret; rewrite Hrf, Hts; reflexivity).
  rewrite reconcileKubeconfig_eq, Hget1, Href, Hget2, Hgen.
  unfold orFail at 1. cbn [fst mret M_ret]. rewrite Hwrite.
  unfold orFail at 1. cbn [fst mret M_ret].
  set (d := kubeconfigSecretFor (r_clusterName r) out).
  destruct (upsert_served d w eq_refl Hrf Hwf) as (op & stored & Hop & Hlook & Hsame).
  destruct (upsertKubeconfigSecret d w) as [[uerr|op'] w']; cbn [fst snd] in *;
    [discriminate |].
  exists w', stored. split; [reflexivity |]. split; [exact Hlook |].
  destruct Hsame as (Hl & _ & Hd & Hty). auto.
Qed.


Lemma generateKubeconfig_empty_fails (o : kubeconfigOptions) :
  token o = "" \/ caCert o = "" \/ apiServerEnpoint o = "" \/ clusterName o = "" ->
  exists err, generateKubeconfig o = (None, Some err).
Proof.
  intros Hempty. unfold generateKubeconfig.
  destruct (fieldEmpty FieldToken o) eqn:Ht; [eauto |].
  destruct (fieldEmpty FieldCaCert o) eqn:Hc; [eauto |].
  destruct (fieldEmpty FieldApiServerEnpoint o) eqn:He; [eauto |].
  destruct (fieldEmpty FieldClusterName o) eqn:Hn; [eauto |].
  exfalso. simpl in Ht, Hc, He, Hn.
  apply bool_decide_eq_false in Ht, Hc, He, Hn. tauto.
Qed.

(** X6.  When the token secret is read but lacks a "token" or a "ca.crt"
    entry (or has an empty one), or the host of the rest configuration or
    the cluster name is empty, reconcileKubeconfig fails at the generation
    with "error generating kubeconfig: ..." and writes nothing. *)
Theorem reconcileKubeconfig_empty_input_fails (r : KubeconfigReconciler) (w : Store)
    (serviceAccount : corev1.ServiceAccount) (tokenSecretRef : corev1.ObjectReference)
    (tokenSecret : corev1.Secret) :
  fst (GetServiceAccount (DefaultManagedNamespace, serviceAccountName) w)
    = inr serviceAccount ->
  findTokenSecretRef tokenPrefix (corev1.Secrets serviceAccount) = Some tokenSecretRef ->
  fst (GetSecret (DefaultManagedNamespace, corev1.RefName tokenSecretRef) w)
    = inr tokenSecret ->
  default "" (corev1.Data tokenSecret !! "token") = ""
  \/ default "" (corev1.Data tokenSecret !! "ca.crt") = ""
  \/ RestCfgHost r = ""
  \/ r_clusterName r = "" ->
  exists err,
    reconcileKubeconfig r w = (inl (Errorf "error generating kubeconfig: " err), w).
Proof.
  intros Hsa Href Hts Hempty.
  rewrite reconcileKubeconfig_eq, Hsa, Href, Hts.
  destruct (generateKubeconfig_empty_fails (optionsFor r tokenSecret) Hempty) as [err Hgen].
  rewrite Hgen. cbn [orFail fst failM]. exists err. reflexivity.
Qed.

End ReconcileKubeconfigFacts.

(** ** Calls that leave the status conditions alone *)

Lemma framesConditions_ret {A : Type} (x : A) : framesConditions (mret x).
Proof. intros cs w. reflexivity. Qed.

Lemma framesConditions_fail {A : Type} (err : error) : framesConditions (@failM A err).
Proof. intros cs w. reflexivity. Qed.

Lemma framesConditions_bind {A B : Type} (c : M A) (f : A -> M B) :
  framesConditions c -> (forall x, framesConditions (f x)) -> framesConditions (c ≫= f).
Proof.
  intros Hc Hf cs w. unfold mbind, M_bind. rewrite (Hc cs w).
  destruct (c w) as [[err|x] w']; simpl; [reflexivity | apply Hf].
Qed.

Lemma framesConditions_wrapErr {A : Type} (pre : string) (c : M A) :
  framesConditions c -> framesConditions (wrapErr pre c).
Proof.
  intros Hc cs w. unfold wrapErr. rewrite (Hc cs w).
  destruct (c w) as [[err|x] w']; reflexivity.
Qed.

Lemma framesConditions_orFail {A : Type} (r : option A * option error) :
  framesConditions (orFail r).
Proof. destruct r as [[v|] [err|]]; intros cs w; reflexivity. Qed.

Lemma framesConditions_GetInfrastructure (name : string) :
  framesConditions (GetInfrastructure name).
Proof.
  intros cs w. unfold GetInfrastructure. cbn [ReadFault Infrastructures setConditions].
  destruct (ReadFault w KindInfrastructure); [reflexivity |].
  destruct (Infrastructures w !! name); reflexivity.
Qed.

Lemma framesConditions_GetServiceAccount (key : ObjectKey) :
  framesConditions (GetServiceAccount key).
Proof.
  intros cs w. unfold GetServiceAccount. cbn [ReadFault ServiceAccounts setConditions].
  destruct (ReadFault w KindServiceAccount); [reflexivity |].
  destruct (ServiceAccounts w !! key); reflexivity.
Qed.

Lemma framesConditions_GetSecret (key : ObjectKey) : framesConditions (GetSecret key).
Proof.
  intros cs w. unfold GetSecret. cbn [ReadFault SecretsOf setConditions].
  destruct (ReadFault w KindSecret); [reflexivity |].
  destruct (SecretsOf w !! key); reflexivity.
Qed.

Lemma framesConditions_Create (obj : corev1.Secret) : framesConditions (Create obj).
Proof.
  intros cs w. unfold Create. cbn [WriteFault SecretsOf setConditions].
  destruct (WriteFault w KindSecret); [reflexivity |].
  destruct (bool_decide _); [reflexivity |].
  destruct (SecretsOf w !! ObjectKeyFromObject obj); reflexivity.
Qed.

Lemma framesConditions_Patch (obj : corev1.Secret) (p : SecretPatch) :
  framesConditions (Patch obj p).
Proof.
  intros cs w. unfold Patch. cbn [WriteFault SecretsOf setConditions].
  destruct (WriteFault w KindSecret); [reflexivity |].
  destruct (SecretsOf w !! ObjectKeyFromObject obj); [| reflexivity].
  destruct (bool_decide _); [reflexivity |].
  destruct (decide _); reflexivity.
Qed.

Lemma framesConditions_CreateOrPatch (obj : corev1.Secret) (f : MutateFn) :
  framesConditions (CreateOrPatch obj f).
Proof.
  intros cs w. unfold CreateOrPatch.
  rewrite (framesConditions_GetSecret _ cs w).
  destruct (GetSecret (ObjectKeyFromObject obj) w) as [[err|before] w1]; cbn [fst snd].
  - destruct (IsNotFound err); [| reflexivity].
    destruct (mutate f _ obj) as [err'|obj1]; [reflexivity |].
    rewrite (framesConditions_Create _ cs w1).
    destruct (Create obj1 w1) as [[err'|x] w2]; reflexivity.
  - destruct (mutate f _ before) as [err'|after]; [reflexivity |].
    destruct (decide (before = after)); [reflexivity |].
    rewrite (framesConditions_Patch _ _ cs w1).
    destruct (Patch after _ w1) as [[err'|x] w2]; reflexivity.
Qed.

Lemma GetSecret_inr (key : ObjectKey) (w : Store) (s : corev1.Secret) :
  fst (GetSecret key w) = inr s
  <-> ReadFault w KindSecret = None /\ SecretsOf w !! key = Some s.
Proof.
  unfold GetSecret. destruct (ReadFault w KindSecret); cbn [fst].
  - split; [discriminate | intros [? _]; discriminate].
  - destruct (SecretsOf w !! key); cbn [fst].
    + split; [intros [= ->]; auto | intros [_ [= ->]]; reflexivity].
    + split; [discriminate | intros [_ ?]; discriminate].
Qed.

Lemma GetServiceAccount_touchesOnly (k key : ObjectKey) (w w' : Store) :
  touchesOnly key w w' -> fst (GetServiceAccount k w') = fst (GetServiceAccount k w).
Proof.
  intros (_ & Hsa & _ & Hr & _). unfold GetServiceAccount. rewrite Hsa, Hr.
  destruct (ReadFault w KindServiceAccount); [reflexivity |].
  destruct (ServiceAccounts w !! k); reflexivity.
Qed.

Lemma GetInfrastructure_touchesOnly (name : string) (key : ObjectKey) (w w' : Store) :
  touchesOnly key w w' -> fst (GetInfrastructure name w') = fst (GetInfrastructure name w).
Proof.
  intros (Hi & _ & _ & Hr & _). unfold GetInfrastructure. rewrite Hi, Hr.
  destruct (ReadFault w KindInfrastructure); [reflexivity |].
  destruct (Infrastructures w !! name); reflexivity.
Qed.

Lemma GetInfrastructure_inr (name : string) (w : Store) (infra : configv1.Infrastructure) :
  fst (GetInfrastructure name w) = inr infra -> Infrastructures w !! name = Some infra.
Proof.
  unfold GetInfrastructure. destruct (ReadFault w KindInfrastructure); [discriminate |].
  destruct (Infrastructures w !! name); [intros [= ->]; reflexivity | discriminate].
Qed.

Lemma orFail_fst {A : Type} (x : option A * option error) (w w' : Store) :
  fst (orFail x w) = fst (orFail x w').
Proof. destruct x as [[v|] [err|]]; reflexivity. Qed.

(** The two condition updates are idempotent. *)
Lemma available_twice (c : gmap string configv1.ClusterOperatorStatusCondition)
    (a d : configv1.ClusterOperatorStatusCondition) :
  <["Available" := a]> (<["Degraded" := d]> (<["Available" := a]> (<["Degraded" := d]> c)))
  = <["Available" := a]> (<["Degraded" := d]> c).
Proof.
  apply map_eq. intros k.
  destruct (decide (k = "Available")) as [->|Ha]; [rewrite !lookup_insert_eq; reflexivity |].
  destruct (decide (k = "Degraded")) as [->|Hd].
  - rewrite !(lookup_insert_ne _ "Available") by congruence.
    rewrite !lookup_insert_eq. reflexivity.
  - repeat (rewrite lookup_insert_ne by congruence). reflexivity.
Qed.

(** ** The reconcile loop as a whole (lines 44 to 83) *)

Section LoopFacts.
Context `{Externals}.

Lemma framesConditions_reconcileKubeconfig (r : KubeconfigReconciler) :
  framesConditions (reconcileKubeconfig r).
Proof.
  unfold reconcileKubeconfig.
  apply framesConditions_bind;
    [apply framesConditions_wrapErr, framesConditions_GetServiceAccount |].
  intros serviceAccount.
  destruct (findTokenSecretRef _ _) as [tokenSecretRef|]; [| apply framesConditions_fail].
  apply framesConditions_bind; [apply framesConditions_wrapErr, framesConditions_GetSecret |].
  intros tokenSecret.
  apply framesConditions_bind; [apply framesConditions_wrapErr, framesConditions_orFail |].
  intros kubeconfig.
  apply framesConditions_bind; [apply framesConditions_wrapErr, framesConditions_orFail |].
  intros out.
  apply framesConditions_bind;
    [apply framesConditions_wrapErr, framesConditions_CreateOrPatch |].
  intros _. apply framesConditions_ret.
Qed.

Lemma Reconcile_eq (r : KubeconfigReconciler) (w : Store) :
  Reconcile r w = reportOutcome (reconcileOutcome r w).
Proof.
  unfold Reconcile, reconcileOutcome, reportOutcome.
  destruct (GetInfrastructure InfrastructureResourceName w) as [[err|infra] w0];
    [reflexivity |].
  destruct (configv1.PlatformStatus_ (configv1.Status infra)) as [ps|]; [| reflexivity].
  cbv zeta.
  destruct (SupportedPlatforms _ !! _); [| reflexivity].
  destruct (reconcileKubeconfig _ w0) as [[err|u] w1]; reflexivity.
Qed.

(** Up to the status write the loop touches the kubeconfig secret at most,
    and not even that one when it has an error to report. *)
Lemma reconcileOutcome_store (r : KubeconfigReconciler) (w : Store) :
  let '(r', o, w') := reconcileOutcome r w in
  touchesOnly (kubeconfigKey (r_clusterName r')) w w'
  /\ (forall err, o = Some err -> w' = w).
Proof.
  unfold reconcileOutcome.
  pose proof (GetInfrastructure_store InfrastructureResourceName w) as Hs.
  destruct (GetInfrastructure InfrastructureResourceName w) as [[err|infra] w0];
    cbn [snd] in Hs; subst w0; [split; [apply touchesOnly_refl | reflexivity] |].
  destruct (configv1.PlatformStatus_ (configv1.Status infra)) as [ps|];
    [| split; [apply touchesOnly_refl | reflexivity]].
  cbv zeta.
  destruct (SupportedPlatforms _ !! _); [| split; [apply touchesOnly_refl | reflexivity]].
  set (r' := setClusterName _ r).
  destruct (reconcileKubeconfig_store r' w) as [Ht Hkeep].
  destruct (reconcileKubeconfig r' w) as [[err|u] w1]; cbn [fst snd] in *.
  - split; [exact Ht |]. intros _ _. apply (Hkeep err eq_refl).
  - split; [exact Ht | discriminate].
Qed.

Lemma statusFault_touchesOnly (key : ObjectKey) (w w' : Store) :
  touchesOnly key w w' -> statusFault w' = statusFault w.
Proof. intros (_ & _ & _ & Hr & Hw & _). unfold statusFault. rewrite Hr, Hw. reflexivity. Qed.

(** X9.  The loop always ends on a status write and what it returns agrees
    with it.  It never asks for a requeue of its own (the result is empty).
    When the status record takes the write: a nil error comes with
    Available true and Degraded false, an error comes with Degraded true
    and the text of that very error as message.  When the status record
    does not take the write, the loop returns an error (the failure of the
    write, as it is or under "error syncing ClusterOperatorStatus: ") and
    the conditions are as before. *)
Theorem Reconcile_reports_outcome (r : KubeconfigReconciler) (w : Store) :
  let '((res, e), _, w') := Reconcile r w in
  res = emptyResult
  /\ match statusFault w with
     | None =>
         match e with
         | None =>
             Conditions w' !! "Available" = Some (configv1.mkCondition true "")
             /\ Conditions w' !! "Degraded" = Some (configv1.mkCondition false "")
         | Some err =>
             Conditions w' !! "Degraded" = Some (configv1.mkCondition true (Error err))
         end
     | Some serr =>
         (e = Some serr \/ e = Some (Errorf "error syncing ClusterOperatorStatus: " serr))
         /\ Conditions w' = Conditions w
     end.
Proof.
  rewrite Reconcile_eq.
  pose proof (reconcileOutcome_store r w) as Ht.
  destruct (reconcileOutcome r w) as [[r' o] wk]. destruct Ht as [Ht _].
  rewrite <- (statusFault_touchesOnly _ _ _ Ht).
  destruct Ht as (_ & _ & Hc & _). rewrite <- Hc.
  unfold reportOutcome, SetStatusDegraded, SetStatusAvailable.
  destruct o as [err|]; rewrite writeConditions_eq;
    destruct (statusFault wk) as [serr|]; cbn [finish setConditions Conditions id];
    (split; [reflexivity |]).
  - auto.
  - apply lookup_insert_eq.
  - auto.
  - split; [apply lookup_insert_eq |].
    rewrite lookup_insert_ne by discriminate. apply lookup_insert_eq.
Qed.

(** X10.  The loop only reads the infrastructure records and the service
    accounts: after any run they are as before, and among the secrets at
    most the kubeconfig secret of the cluster name the reconciler ends with
    has changed. *)
Theorem Reconcile_touches (r : KubeconfigReconciler) (w : Store) :
  let '(_, r', w') := Reconcile r w in
  Infrastructures w' = Infrastructures w
  /\ ServiceAccounts w' = ServiceAccounts w
  /\ forall k, k <> (DefaultManagedNamespace, r_clusterName r' +:+ "-kubeconfig") ->
               SecretsOf w' !! k = SecretsOf w !! k.
Proof.
  rewrite Reconcile_eq.
  pose proof (reconcileOutcome_store r w) as Ht.
  destruct (reconcileOutcome r w) as [[r' o] wk].
  destruct Ht as [(Hi & Hsa & _ & _ & _ & Hs) _].
  unfold reportOutcome, SetStatusDegraded, SetStatusAvailable.
  destruct o as [err|]; rewrite writeConditions_eq;
    destruct (statusFault wk) as [serr|]; cbn [finish]; auto.
Qed.

(** X11.  When the status record takes writes and the loop returns an
    error, no typed record of the store has been created or modified: a
    failed reconcile leaves no partial write behind, its only trace is the
    Degraded condition. *)
Theorem Reconcile_error_writes_no_record (r : KubeconfigReconciler) (w : Store)
    (err : error) :
  statusFault w = None ->
  snd (fst (fst (Reconcile r w))) = Some err ->
  sameRecords w (snd (Reconcile r w)).
Proof.
  intros Hsf. rewrite Reconcile_eq.
  pose proof (reconcileOutcome_store r w) as Ht.
  destruct (reconcileOutcome r w) as [[r' o] wk]. destruct Ht as [Ht Hkeep].
  rewrite <- (statusFault_touchesOnly _ _ _ Ht) in Hsf.
  unfold reportOutcome, SetStatusDegraded, SetStatusAvailable.
  destruct o as [e|]; rewrite writeConditions_eq, Hsf; cbn [finish fst snd id].
  - intros _. rewrite (Hkeep e eq_refl). repeat split.
  - discriminate.
Qed.


(** X12.  What a run does to the reconciler: the supported platforms and
    the rest configuration never change; the cluster name becomes the
    infrastructure name as soon as the infrastructure record is read with a
    platform status, also when the platform is not supported or the
    reconciliation then fails, and stays what it was otherwise. *)
Theorem Reconcile_clusterName (r : KubeconfigReconciler) (w : Store) :
  let r' := snd (fst (Reconcile r w)) in
  SupportedPlatforms r' = SupportedPlatforms r
  /\ RestCfgHost r' = RestCfgHost r
  /\ r_clusterName r' =
       match fst (GetInfrastructure InfrastructureResourceName w) with
       | inr infra =>
           match configv1.PlatformStatus_ (configv1.Status infra) with
           | Some _ => configv1.InfrastructureName (configv1.Status infra)
           | None => r_clusterName r
           end
       | inl _ => r_clusterName r
       end.
Proof.
  rewrite Reconcile_eq.
  assert (Hrep : forall o, snd (fst (reportOutcome o)) = fst (fst o)).
  { intros [[r0 [e|]] w0]; unfold reportOutcome;
      match goal with |- context [finish _ _ _ ?x] => destruct x as [[?|?] ?] end;
      reflexivity. }
  cbv zeta. rewrite Hrep. unfold reconcileOutcome.
  destruct (GetInfrastructure InfrastructureResourceName w) as [[gerr|infra] w0];
    cbn [fst]; [auto |].
  destruct (configv1.PlatformStatus_ (configv1.Status infra)) as [ps|]; cbn [fst]; [| auto].
  cbv zeta. destruct (SupportedPlatforms _ !! _); cbn [fst]; [| auto].
  destruct (reconcileKubeconfig _ w0) as [[kerr|u] w1]; cbn [fst]; auto.
Qed.

(** A run of reconcileKubeconfig that went through goes through again on
    the store it left and changes nothing, as long as the token secret it
    reads is not the secret it writes. *)
Lemma reconcileKubeconfig_again (r : KubeconfigReconciler) (w wk : Store) :
  HasPrefix (r_clusterName r +:+ "-kubeconfig") tokenPrefix = false ->
  reconcileKubeconfig r w = (inr tt, wk) ->
  reconcileKubeconfig r wk = (inr tt, wk).
Proof.
  intros Hclash. rewrite !reconcileKubeconfig_eq.
  destruct (fst (GetServiceAccount _ w)) as [err|sa] eqn:Hsa; [discriminate |].
  destruct (findTokenSecretRef tokenPrefix (corev1.Secrets sa)) as [ref|] eqn:Href;
    [| discriminate].
  destruct (fst (GetSecret _ w)) as [err|ts] eqn:Hts; [discriminate |].
  destruct (fst (orFail (generateKubeconfig (optionsFor r ts)) w)) as [err|cfg] eqn:Hcfg;
    [discriminate |].
  destruct (fst (orFail (clientcmd_Write cfg) w)) as [err|out] eqn:Hout; [discriminate |].
  set (d := kubeconfigSecretFor (r_clusterName r) out).
  pose proof (CreateOrPatch_touchesOnly d (mutateFn d) w) as [Ht _].
  fold (upsertKubeconfigSecret d) in Ht.
  apply GetSecret_inr in Hts as [Hrf Hlook].
  destruct (upsertKubeconfigSecret d w) as [[uerr|op] w'] eqn:Hup; [discriminate |].
  intros [= <-]. cbn [snd] in Ht.
  rewrite (GetServiceAccount_touchesOnly _ _ _ _ Ht), Hsa, Href.
  assert (Hts' : fst (GetSecret (DefaultManagedNamespace, corev1.RefName ref) w') = inr ts).
  { apply GetSecret_inr. destruct Ht as (_ & _ & _ & Hr & _ & Hs).
    rewrite Hr. split; [exact Hrf |]. rewrite Hs; [exact Hlook |].
    unfold d. rewrite kubeconfigKey_eq. unfold kubeconfigKey. intros [= Hname].
    apply findTokenSecretRef_prefix in Href.
    rewrite Hname in Href. congruence. }
  rewrite Hts', <- (orFail_fst _ w w'), Hcfg, <- (orFail_fst _ w w'), Hout.
  fold d.
  destruct (upsert_again d w op eq_refl Hrf) as [op' Hagain].
  { rewrite Hup. reflexivity. }
  rewrite Hup in Hagain. cbn [snd] in Hagain. rewrite Hagain. reflexivity.
Qed.

Lemma reconcileOutcome_conditions (r : KubeconfigReconciler) (w : Store)
    (cs : gmap string configv1.ClusterOperatorStatusCondition) :
  reconcileOutcome r (setConditions cs w) =
    let '(r', o, wk) := reconcileOutcome r w in (r', o, setConditions cs wk).
Proof.
  unfold reconcileOutcome.
  rewrite (framesConditions_GetInfrastructure _ cs w).
  destruct (GetInfrastructure InfrastructureResourceName w) as [[err|infra] w0];
    cbn [fst snd]; [reflexivity |].
  destruct (configv1.PlatformStatus_ (configv1.Status infra)) as [ps|]; [| reflexivity].
  cbv zeta. destruct (SupportedPlatforms _ !! _); [| reflexivity].
  rewrite (framesConditions_reconcileKubeconfig _ cs w0).
  destruct (reconcileKubeconfig _ w0) as [[kerr|u] w1]; reflexivity.
Qed.

Lemma reconcileOutcome_again (r r' : KubeconfigReconciler) (w wk : Store) (o : option error) :
  noTokenNameClash w ->
  reconcileOutcome r w = (r', o, wk) ->
  reconcileOutcome r' wk = (r', o, wk).
Proof.
  intros Hclash. unfold reconcileOutcome at 1.
  pose proof (GetInfrastructure_store InfrastructureResourceName w) as Hs.
  destruct (GetInfrastructure InfrastructureResourceName w) as [[gerr|infra] w0] eqn:Hget;
    cbn [snd] in Hs; subst w0.
  { intros [= <- <- <-]. unfold reconcileOutcome. rewrite Hget. reflexivity. }
  destruct (configv1.PlatformStatus_ (configv1.Status infra)) as [ps|] eqn:Hps.
  2:{ intros [= <- <- <-]. unfold reconcileOutcome. rewrite Hget, Hps. reflexivity. }
  cbv zeta.
  set (r0 := setClusterName (configv1.InfrastructureName (configv1.Status infra)) r).
  assert (Hr0 : setClusterName (configv1.InfrastructureName (configv1.Status infra)) r0 = r0)
    by reflexivity.
  destruct (SupportedPlatforms r0 !! ToLower (configv1.PlatformType ps)) as [b|] eqn:Hsp.
  2:{ intros [= <- <- <-]. unfold reconcileOutcome. rewrite Hget, Hps. cbv zeta.
      rewrite Hr0, Hsp. reflexivity. }
  destruct (reconcileKubeconfig_store r0 w) as [Ht Hkeep].
  destruct (reconcileKubeconfig r0 w) as [[kerr|[]] w1] eqn:Hrk; cbn [fst snd] in *.
  - intros [= <- <- <-]. rewrite (Hkeep kerr eq_refl).
    unfold reconcileOutcome. rewrite Hget, Hps. cbv zeta. rewrite Hr0, Hsp.
    rewrite (Hkeep kerr eq_refl) in Hrk. rewrite Hrk. reflexivity.
  - intros [= <- <- <-]. unfold reconcileOutcome.
    pose proof (GetInfrastructure_touchesOnly InfrastructureResourceName _ _ _ Ht) as Hgi.
    pose proof (GetInfrastructure_store InfrastructureResourceName w1) as Hs1.
    destruct (GetInfrastructure InfrastructureResourceName w1) as [res1 w1'];
      cbn [fst snd] in *; subst w1'. rewrite Hgi, Hget. cbn [fst].
    rewrite Hps. cbv zeta. rewrite Hr0, Hsp.
    rewrite (reconcileKubeconfig_again r0 w w1); [reflexivity | | exact Hrk].
    apply Hclash. apply GetInfrastructure_inr. rewrite Hget. reflexivity.
Qed.

(** The status write, repeated on the store it left, changes nothing and
    answers the same. *)
Lemma reportOutcome_again (r : KubeconfigReconciler) (o : option error) (wk : Store) :
  let '(out, r1, w1) := reportOutcome (r, o, wk) in
  reportOutcome (r, o, w1) = (out, r1, w1).
Proof.
  unfold reportOutcome, SetStatusDegraded, SetStatusAvailable.
  destruct o as [err|]; rewrite !writeConditions_eq;
    destruct (statusFault wk) as [serr|] eqn:Hsf; cbn [finish].
  - rewrite writeConditions_eq, Hsf. reflexivity.
  - rewrite writeConditions_eq.
    change (statusFault (setConditions _ wk)) with (statusFault wk). rewrite Hsf.
    cbn [finish setConditions Conditions]. rewrite insert_insert_eq. reflexivity.
  - rewrite writeConditions_eq, Hsf. reflexivity.
  - rewrite writeConditions_eq.
    change (statusFault (setConditions _ wk)) with (statusFault wk). rewrite Hsf.
    cbn [finish setConditions Conditions]. rewrite available_twice. reflexivity.
Qed.

Lemma reportOutcome_store (r : KubeconfigReconciler) (o : option error) (wk : Store) :
  exists cs, snd (reportOutcome (r, o, wk)) = setConditions cs wk
             /\ snd (fst (reportOutcome (r, o, wk))) = r.
Proof.
  unfold reportOutcome, SetStatusDegraded, SetStatusAvailable.
  destruct o as [err|]; rewrite !writeConditions_eq;
    destruct (statusFault wk) as [serr|]; cbn [finish fst snd];
    try (eexists; split; reflexivity);
    exists (Conditions wk); (split; [destruct wk; reflexivity | reflexivity]).
Qed.

Lemma Reconcile_again (r : KubeconfigReconciler) (w : Store) :
  noTokenNameClash w ->
  let '(out, r1, w1) := Reconcile r w in
  Reconcile r1 w1 = (out, r1, w1).
Proof.
  intros Hclash. rewrite Reconcile_eq.
  destruct (reconcileOutcome r w) as [[r' o] wk] eqn:Hout.
  pose proof (reconcileOutcome_again r r' w wk o Hclash Hout) as Hag.
  pose proof (reportOutcome_again r' o wk) as Hrep.
  destruct (reportOutcome_store r' o wk) as (cs & Hst & Hr).
  destruct (reportOutcome (r', o, wk)) as [[out r1] w1]; cbn [fst snd] in *. subst r1 w1.
  rewrite Reconcile_eq, reconcileOutcome_conditions, Hag. exact Hrep.
Qed.

Lemma noTokenNameClash_Reconcile (r : KubeconfigReconciler) (w : Store) :
  noTokenNameClash w -> noTokenNameClash (snd (Reconcile r w)).
Proof.
  intros Hclash infra. rewrite Reconcile_eq.
  pose proof (reconcileOutcome_store r w) as Ht.
  destruct (reconcileOutcome r w) as [[r' o] wk]. destruct Ht as [(Hi & _) _].
  destruct (reportOutcome_store r' o wk) as (cs & -> & _).
  cbn [Infrastructures setConditions]. rewrite Hi. apply Hclash.
Qed.

(** X13.  Duplicate triggers converge.  As long as the kubeconfig secret is
    not a namesake of the token secrets of the service account, one trigger
    followed by any number of duplicates returns what one trigger returns
    and leaves the reconciler and the store (secrets, revision, status
    conditions) that one trigger leaves: also when the store refuses reads
    or writes. *)
Theorem ReconcileTimes_once (n : nat) (r : KubeconfigReconciler) (w : Store) :
  noTokenNameClash w ->
  ReconcileTimes n r w = Reconcile r w.
Proof.
  revert r w. induction n as [|n IH]; intros r w Hclash; [reflexivity |].
  cbn [ReconcileTimes].
  pose proof (Reconcile_again r w Hclash) as Hag.
  pose proof (noTokenNameClash_Reconcile r w Hclash) as Hc1.
  destruct (Reconcile r w) as [[out r1] w1]. cbn [snd] in Hc1.
  rewrite (IH r1 w1 Hc1). exact Hag.
Qed.

End LoopFacts.

(** ** The filters against each other (watch_predicates.go) *)

Section FilterFacts.
Context `{Externals}.

Lemma admittedBy_clusterOperator (obj : Object) :
  admittedBy clusterOperatorPredicates obj <-> isClusterOperatorCluster obj = true.
Proof.
  unfold admittedBy; simpl. split; [intros [?|[[_ ?]|[?|?]]]; assumption | auto].
Qed.

Lemma admittedBy_infrastructure (obj : Object) :
  admittedBy infrastructurePredicates obj <-> isInfrastructureCluster obj = true.
Proof.
  unfold admittedBy; simpl. split; [intros [?|[[_ ?]|[?|?]]]; assumption | auto].
Qed.

Lemma admittedBy_featureGate (obj : Object) :
  admittedBy featureGatePredicates obj <-> isFeatureGateCluster obj = true.
Proof.
  unfold admittedBy; simpl. split; [intros [?|[[_ ?]|[?|?]]]; assumption | auto].
Qed.

(** X14.  The three filters exclude each other: no object has a
    notification admitted by two of them, whatever the singleton names are
    (two of them may well be the same name), and a nil object, a secret or
    an object of any other kind is admitted by none. *)
Theorem predicates_exclusive (obj : Object) :
  ~ (admittedBy clusterOperatorPredicates obj /\ admittedBy infrastructurePredicates obj)
  /\ ~ (admittedBy clusterOperatorPredicates obj /\ admittedBy featureGatePredicates obj)
  /\ ~ (admittedBy infrastructurePredicates obj /\ admittedBy featureGatePredicates obj)
  /\ ((obj = ObjNil \/ (exists s, obj = ObjSecret s) \/ (exists kind name, obj = ObjOther kind name)) ->
      ~ admittedBy clusterOperatorPredicates obj
      /\ ~ admittedBy infrastructurePredicates obj
      /\ ~ admittedBy featureGatePredicates obj).
Proof.
  rewrite admittedBy_clusterOperator, admittedBy_infrastructure, admittedBy_featureGate.
  split; [| split; [| split]].
  - intros [Hco Hinfra]. destruct obj; simpl in Hco, Hinfra; discriminate.
  - intros [Hco Hfg]. destruct obj; simpl in Hco, Hfg; discriminate.
  - intros [Hinfra Hfg]. destruct obj; simpl in Hinfra, Hfg; discriminate.
  - intros [-> | [[s ->] | (kind & name & ->)]]; simpl; repeat split; discriminate.
Qed.

End FilterFacts.

(** ** The further properties at concrete inputs *)

(** Why duplicate triggers need the proviso on names: with a cluster named
    "cluster-capi-operator-token" the kubeconfig secret is the very secret
    the service account lists as its token secret.  The first run succeeds
    and overwrites it; the second finds no token in it and fails. *)
Example Reconcile_name_clash :
  let '((_, e1), r1, w1) := @Reconcile sampleExternals sampleReconciler clashStore in
  let '((_, e2), _, w2) := @Reconcile sampleExternals r1 w1 in
  e1 = None
  /\ (exists stored,
        SecretsOf w1 !! ("openshift-cluster-api", "cluster-capi-operator-token-kubeconfig")
          = Some stored
        /\ corev1.Data stored !! "token" = None
        /\ corev1.SecretType stored = clusterv1.ClusterSecretType)
  /\ e2 = Some (Errorf "error generating kubeconfig: " (errEmpty FieldToken))
  /\ Conditions w2 !! "Degraded"
     = Some (configv1.mkCondition true "error generating kubeconfig: token can't be empty").
Proof.
  vm_compute. repeat split. eexists. repeat split.
Qed.

(** A status write that fails after the upsert went through: the loop
    returns the failure although the secret is written. *)
Example Reconcile_status_fails_after_upsert :
  let w := withWriteFault statusConflict (sampleStore "AWS") in
  let '((_, e), _, w') := @Reconcile sampleExternals sampleReconciler w in
  e = Some conflictClusterOperator
  /\ is_Some (SecretsOf w' !! ("openshift-cluster-api", "test-kubeconfig"))
  /\ Conditions w' = Conditions w.
Proof.
  vm_compute. repeat split. eexists. reflexivity.
Qed.

Lemma reconcileKubeconfig_error_keeps_store_witness :
  snd (@reconcileKubeconfig sampleExternals sampleReconciler annotatedStore) = annotatedStore.
Proof.
  apply (@reconcileKubeconfig_error_keeps_store sampleExternals sampleReconciler annotatedStore
           (Errorf "error retrieving ServiceAccount cluster-capi-operator: "
                   (NewNotFound "serviceaccounts" "cluster-capi-operator"))).
  reflexivity.
Defined.

Lemma reconcileKubeconfig_error_opaque_witness :
  let err := Errorf "error retrieving ServiceAccount cluster-capi-operator: "
                    (NewNotFound "serviceaccounts" "cluster-capi-operator") in
  fst (@reconcileKubeconfig sampleExternals sampleReconciler annotatedStore) = inl err
  /\ ErrStatus err = None /\ IsNotFound err = false.
Proof.
  intros err. split; [reflexivity |].
  apply (@reconcileKubeconfig_error_opaque sampleExternals sampleReconciler annotatedStore err).
  reflexivity.
Defined.

Lemma reconcileKubeconfig_success_witness :
  exists w' stored,
    @reconcileKubeconfig sampleExternals (setClusterName "test" sampleReconciler)
      (sampleStore "AWS") = (inr tt, w')
    /\ SecretsOf w' !! ("openshift-cluster-api", "test-kubeconfig") = Some stored
    /\ corev1.Data stored
       = {[ "value" :=
              "cluster test https://example.com dGVzdA==;"
              +:+ "context test test cluster-capi-operator openshift-cluster-api;"
              +:+ "user cluster-capi-operator test" ]}.
Proof.
  destruct (@reconcileKubeconfig_success sampleExternals
              (setClusterName "test" sampleReconciler) (sampleStore "AWS")
              sampleServiceAccount
              {| corev1.RefName := "cluster-capi-operator-token-x7k2p" |}
              sampleTokenSecret
              {| api.Clusters :=
                   {[ "test" := {| api.Server := "https://example.com";
                                   api.CertificateAuthorityData := "dGVzdA==" |} ]};
                 api.Contexts :=
                   {[ "test" := {| api.ContextCluster := "test";
                                   api.ContextAuthInfo := "cluster-capi-operator";
                                   api.ContextNamespace := "openshift-cluster-api" |} ]};
                 api.AuthInfos := {[ "cluster-capi-operator" := {| api.Token := "test" |} ]} |}
              ("cluster test https://example.com dGVzdA==;"
               +:+ "context test test cluster-capi-operator openshift-cluster-api;"
               +:+ "user cluster-capi-operator test"))
    as (w' & stored & Hrun & Hlook & Hdata & _);
    try reflexivity.
  exists w', stored. split; [exact Hrun |]. split; [exact Hlook | exact Hdata].
Defined.

Lemma reconcileKubeconfig_empty_input_fails_witness :
  exists err,
    @reconcileKubeconfig sampleExternals sampleReconciler (sampleStore "AWS")
    = (inl (Errorf "error generating kubeconfig: " err), sampleStore "AWS").
Proof.
  apply (@reconcileKubeconfig_empty_input_fails sampleExternals sampleReconciler
           (sampleStore "AWS") sampleServiceAccount
           {| corev1.RefName := "cluster-capi-operator-token-x7k2p" |} sampleTokenSecret);
    try reflexivity.
  right. right. right. reflexivity.
Defined.

Lemma upsert_absent_creates_witness :
  exists w',
    upsertKubeconfigSecret (@kubeconfigSecretFor sampleExternals "test" "payload")
      (sampleStore "AWS")
    = (inr OperationResultCreated, w')
    /\ Revision w' = 2%N.
Proof.
  destruct (@upsert_absent_creates sampleExternals "test" "payload" (sampleStore "AWS")
              eq_refl eq_refl eq_refl) as (w' & Hup & _ & Hrev & _).
  exists w'. split; [exact Hup | exact Hrev].
Defined.

Lemma kubeconfigKey_injective_witness : "test" = "test".
Proof.
  exact (@kubeconfigKey_injective sampleExternals "test" "test" eq_refl).
Defined.

Lemma Reconcile_error_writes_no_record_witness :
  let w := withInfrastructures ∅ (sampleStore "AWS") in
  sameRecords w (snd (@Reconcile sampleExternals sampleReconciler w)).
Proof.
  intros w.
  apply (@Reconcile_error_writes_no_record sampleExternals sampleReconciler w notFoundCluster);
    reflexivity.
Defined.

Lemma noTokenNameClash_sampleStore (platform : string) :
  @noTokenNameClash sampleExternals (sampleStore platform).
Proof.
  intros infra Hlook. cbn [Infrastructures sampleStore] in Hlook.
  change (@InfrastructureResourceName sampleExternals) with "cluster" in Hlook.
  rewrite lookup_singleton_eq in Hlook. injection Hlook as <-. reflexivity.
Qed.

Lemma ReconcileTimes_once_witness :
  @ReconcileTimes sampleExternals 3 sampleReconciler (sampleStore "AWS")
  = @Reconcile sampleExternals sampleReconciler (sampleStore "AWS").
Proof.
  apply (@ReconcileTimes_once sampleExternals 3 sampleReconciler (sampleStore "AWS")).
  apply noTokenNameClash_sampleStore.
Defined.


Lemma predicates_exclusive_witness :
  ~ (admittedBy (@clusterOperatorPredicates sampleExternals)
       (ObjInfrastructure (sampleInfrastructure "AWS"))
     /\ admittedBy (@infrastructurePredicates sampleExternals)
          (ObjInfrastructure (sampleInfrastructure "AWS")))
  /\ admittedBy (@infrastructurePredicates sampleExternals)
       (ObjInfrastructure (sampleInfrastructure "AWS")).
Proof.
  split.
  - exact (proj1 (@predicates_exclusive sampleExternals
                    (ObjInfrastructure (sampleInfrastructure "AWS")))).
  - left. reflexivity.
Defined.
